(** * The vuu data-table viewport core: moving window, data-source hook, scroll hook

    A shallow embedding of
    - [vuu-ui/packages/vuu-datatable/src/useDataSource.ts]
      (class [MovingWindow] and the hook [useDataSource]), and
    - the scroll hook [useScroll] ([handleScroll]),
    followed by the properties the specification states about them.

    Conventions of the embedding.
    - Row indices, sizes and pixel offsets are integers ([Z]).  Where the
      source divides ([handleScroll]) JavaScript numbers are modelled by
      [JsNum.t]: an integer, [Infinity], [-Infinity] or [NaN].
    - A JavaScript array with holes is a [list (option A)]: [None] is a hole.
    - A method of a mutable object is a function from the object's state to
      the state after the call together with a [completion] (normal, or the
      exception thrown). *)

From stdpp Require Import base option list list_numbers sorting.
From Stdlib Require Import ZArith Lia Bool.

Local Open Scope Z_scope.

(** ** Completions *)

Inductive completion : Type :=
| Normal
| Throw_RangeError.

(** ** JavaScript arrays *)

Module JsArray.

Abbreviation t A := (list (option A)) (only parsing).

(** The largest length of an array: 2^32 - 1. *)
Definition MAX_LENGTH : Z := 4294967295.

Definition valid_length (n : Z) : bool := (0 <=? n) && (n <=? MAX_LENGTH).

(** [new Array(n)]: [n] holes, or a RangeError when [n] is no array length. *)
Definition new_array {A} (n : Z) : option (t A) :=
  if valid_length n then Some (replicate (Z.to_nat n) None) else None.

(** [a[k]]: [undefined] for a hole and beyond the length.  A negative [k]
    names no element. *)
Definition get {A} (a : t A) (k : Z) : option A :=
  if k <? 0 then None else mjoin (a !! Z.to_nat k).

(** [a[k] = v]: in range the slot is overwritten, beyond the length the
    array grows, the slots in between being holes.  A negative [k] names
    no element and leaves the elements as they are. *)
Definition set {A} (a : t A) (k : Z) (v : A) : t A :=
  if k <? 0 then a
  else
    let n := Z.to_nat k in
    if (n <? length a)%nat then <[n := Some v]> a
    else a ++ replicate (n - length a)%nat None ++ [Some v].

(** [a.length = n]: truncates or pads with holes; a RangeError when [n]
    is no array length. *)
Definition set_length {A} (a : t A) (n : Z) : option (t A) :=
  if valid_length n
  then Some (take (Z.to_nat n) a
             ++ replicate (Z.to_nat n - length a)%nat None)
  else None.

(** [a.length] *)
Definition len {A} (a : t A) : Z := Z.of_nat (length a).

(** The populated elements, in slot order. *)
Definition populated {A} (a : t A) : list A := omap id a.

End JsArray.

(** ** Rows *)

(** Modelled from the spec: the layout of a [DataSourceRow] comes from
    [metadataKeys] of [@finos/vuu-utils], which is not among the sources.
    Field 0 is the row's absolute dataset index, a reserved field
    ([RENDER_IDX]) is its render slot; the other fields are payload. *)
Record DataSourceRow : Type := mkRow {
  row_IDX : Z;
  row_RENDER_IDX : Z;
  row_cells : list Z
}.

(** ** Ranges *)

(** Modelled from the spec: class [WindowRange] of [@finos/vuu-utils], which
    is not among the sources.  A half-open interval [from, to) of absolute
    row indices; [isWithin] is membership, [overlap] the intersection of the
    range with a candidate range. *)
Record WindowRange : Type := mkRange {
  from : Z;
  to : Z
}.

Definition isWithin (r : WindowRange) (index : Z) : bool :=
  (from r <=? index) && (index <? to r).

Definition overlap (r : WindowRange) (from' to' : Z) : Z * Z :=
  (Z.max from' (from r), Z.min to' (to r)).

(** ** class MovingWindow *)

Record MovingWindow : Type := mkWindow {
  data : JsArray.t DataSourceRow;
  rowCount : Z;
  range : WindowRange
}.

(** [constructor({ from, to })] *)
Definition MovingWindow_new (from to : Z) : option MovingWindow :=
  match JsArray.new_array (to - from) with
  | Some d => Some {| data := d; rowCount := 0; range := mkRange from to |}
  | None => None
  end.

(** [setRowCount(rowCount)] *)
Definition setRowCount (n : Z) (w : MovingWindow) : MovingWindow * completion :=
  if n <? JsArray.len (data w) then
    match JsArray.set_length (data w) n with
    | Some d => ({| data := d; rowCount := n; range := range w |}, Normal)
    | None => (w, Throw_RangeError)
    end
  else ({| data := data w; rowCount := n; range := range w |}, Normal).

(** [isWithinRange(index)] *)
Definition isWithinRange (index : Z) (w : MovingWindow) : bool :=
  isWithin (range w) index.

(** [add(data)] *)
Definition add (row : DataSourceRow) (w : MovingWindow) : MovingWindow * completion :=
  let index := row_IDX row in
  if isWithinRange index w then
    let internalIndex := index - from (range w) in
    ({| data := JsArray.set (data w) internalIndex row;
        rowCount := rowCount w;
        range := range w |}, Normal)
  else (w, Normal).

(** [getAtIndex(index)]; [None] is [undefined]. *)
Definition getAtIndex (index : Z) (w : MovingWindow) : option DataSourceRow :=
  if isWithin (range w) index
  then JsArray.get (data w) (index - from (range w))
  else None.

(** The body of the loop of [setRange], at index [i]. *)
Definition copy_row (w : MovingWindow) (from' : Z)
    (newData : JsArray.t DataSourceRow) (i : Z) : JsArray.t DataSourceRow :=
  match getAtIndex i w with
  | Some row => JsArray.set newData (i - from') row
  | None => newData
  end.

(** [setRange(from, to)] *)
Definition setRange (from' to' : Z) (w : MovingWindow) : MovingWindow * completion :=
  if negb (from' =? from (range w)) || negb (to' =? to (range w)) then
    let '(overlapFrom, overlapTo) := overlap (range w) from' to' in
    match JsArray.new_array (to' - from') with
    | Some fresh =>
        let newData :=
          foldl (copy_row w from') fresh
                (seqZ overlapFrom (overlapTo - overlapFrom)) in
        ({| data := newData; rowCount := rowCount w;
            range := mkRange from' to' |}, Normal)
    | None => (w, Throw_RangeError)
    end
  else (w, Normal).

(** The window states a program can reach: built by the constructor and
    changed by the three mutators only. *)
Inductive reachable : MovingWindow -> Prop :=
| reach_new f t w :
    MovingWindow_new f t = Some w -> reachable w
| reach_add row w :
    reachable w -> reachable (fst (add row w))
| reach_setRange f t w :
    reachable w -> reachable (fst (setRange f t w))
| reach_setRowCount n w :
    reachable w -> reachable (fst (setRowCount n w)).

(** The size of the range of a window. *)
Definition range_size (w : MovingWindow) : Z := to (range w) - from (range w).

(** The buffer of a window never outgrows a range that can be allocated. *)
Definition fits (w : MovingWindow) : Prop :=
  JsArray.valid_length (range_size w) = true
  /\ JsArray.len (data w) <= range_size w.

(** Every populated slot holds the row of its absolute index. *)
Definition slots_indexed (w : MovingWindow) : Prop :=
  forall (i : nat) (row : DataSourceRow),
    data w !! i = Some (Some row) -> row_IDX row = from (range w) + Z.of_nat i.

(** ** hook useDataSource *)

(** [byKey]: the comparator of the sort, the difference of the render slots. *)
Definition byKey (row1 row2 : DataSourceRow) : Z :=
  row_RENDER_IDX row1 - row_RENDER_IDX row2.

(** [Array.prototype.sort] is stable: a row goes before the first row that
    compares greater or equal to it among those that followed it. *)
Fixpoint sort_insert (x : DataSourceRow) (l : list DataSourceRow) : list DataSourceRow :=
  match l with
  | [] => [x]
  | y :: l' => if byKey x y <=? 0 then x :: y :: l' else y :: sort_insert x l'
  end.

Definition sort_byKey (l : list DataSourceRow) : list DataSourceRow :=
  foldr sort_insert [] l.

(** [a.slice().sort(byKey)]: the populated rows in comparator order, the
    holes after them; the length is that of [a]. *)
Definition slice_sort (a : JsArray.t DataSourceRow) : JsArray.t DataSourceRow :=
  (Some <$> sort_byKey (JsArray.populated a))
  ++ replicate (length a - length (JsArray.populated a))%nat None.

Inductive config_type : Type :=
| cfg_aggregate | cfg_filter | cfg_groupBy | cfg_sort.

(** The messages of the subscription callback.  [size] and [rows] of a
    viewport update are optional; [msg_other] stands for every other type. *)
Inductive DataSourceCallbackMessage : Type :=
| msg_subscribed
| msg_viewport_update (size : option Z) (rows : option (list DataSourceRow))
| msg_config (type : config_type)
| msg_other.

(** What the hook does to its surroundings, in order.  [forceUpdate] is
    logged with the list the render it requests hands out ([data.current]).
    [onSubscribed] and [onSizeChange] are required props; [onConfigChange]
    and [dataSource] are optional, and [?.] makes no call when one is
    missing. *)
Inductive effect : Type :=
| onSubscribed
| onSizeChange (size : Z)
| onConfigChange (type : config_type)
| forceUpdate (published : JsArray.t DataSourceRow)
| dataSource_setRange (from to : Z).

(** One hook instance: which of the optional props [dataSource] and
    [onConfigChange] it was given, its refs, and the log of its effects. *)
Record Hook : Type := mkHook {
  has_dataSource : bool;
  has_onConfigChange : bool;
  dataWindow : MovingWindow;
  data_current : JsArray.t DataSourceRow;
  hasUpdated : bool;
  isMounted : bool;
  rafHandle : bool;
  rangeRef : WindowRange;
  effects : list effect
}.

Definition log (e : effect) (h : Hook) : Hook :=
  {| has_dataSource := has_dataSource h;
     has_onConfigChange := has_onConfigChange h;
     dataWindow := dataWindow h; data_current := data_current h;
     hasUpdated := hasUpdated h; isMounted := isMounted h;
     rafHandle := rafHandle h; rangeRef := rangeRef h;
     effects := effects h ++ [e] |}.

Definition with_window (w : MovingWindow) (h : Hook) : Hook :=
  {| has_dataSource := has_dataSource h;
     has_onConfigChange := has_onConfigChange h;
     dataWindow := w; data_current := data_current h;
     hasUpdated := hasUpdated h; isMounted := isMounted h;
     rafHandle := rafHandle h; rangeRef := rangeRef h;
     effects := effects h |}.

(** [data.current = dataWindow.data.slice().sort(byKey); hasUpdated.current = true] *)
Definition materialize (h : Hook) : Hook :=
  {| has_dataSource := has_dataSource h;
     has_onConfigChange := has_onConfigChange h;
     dataWindow := dataWindow h;
     data_current := slice_sort (data (dataWindow h));
     hasUpdated := true; isMounted := isMounted h;
     rafHandle := rafHandle h; rangeRef := rangeRef h;
     effects := effects h |}.

(** The loop of [setData]: [dataWindow.add(row)] for each row. *)
Definition add_all (updates : list DataSourceRow) (w : MovingWindow) : MovingWindow :=
  foldl (fun w row => fst (add row w)) w updates.

(** [setData(updates)] *)
Definition setData (updates : list DataSourceRow) (h : Hook) : Hook :=
  materialize (with_window (add_all updates (dataWindow h)) h).

(** [datasourceMessageHandler(message)] *)
Definition datasourceMessageHandler (message : DataSourceCallbackMessage)
    (h : Hook) : Hook * completion :=
  match message with
  | msg_subscribed => (log onSubscribed h, Normal)
  | msg_viewport_update size rows =>
      let '(h1, c1) :=
        match size with
        | Some n =>
            let h' := log (onSizeChange n) h in
            let '(w, c) := setRowCount n (dataWindow h') in
            (with_window w h', c)
        | None => (h, Normal)
        end in
      match c1 with
      | Throw_RangeError => (h1, Throw_RangeError)
      | Normal =>
          match rows with
          | Some updates => (setData updates h1, Normal)
          | None =>
              match size with
              | Some _ => (materialize h1, Normal)
              | None => (h1, Normal)
              end
          end
      end
  | msg_config type =>
      ((if has_onConfigChange h then log (onConfigChange type) h else h), Normal)
  | msg_other => (h, Normal)
  end.

(** [refreshIfUpdated()], the frame-clock callback. *)
Definition refreshIfUpdated (h : Hook) : Hook :=
  if isMounted h then
    let h1 :=
      if hasUpdated h then
        {| has_dataSource := has_dataSource h;
           has_onConfigChange := has_onConfigChange h;
           dataWindow := dataWindow h; data_current := data_current h;
           hasUpdated := false; isMounted := isMounted h;
           rafHandle := rafHandle h; rangeRef := rangeRef h;
           effects := effects h ++ [forceUpdate (data_current h)] |}
      else h in
    {| has_dataSource := has_dataSource h1;
       has_onConfigChange := has_onConfigChange h1;
       dataWindow := dataWindow h1; data_current := data_current h1;
       hasUpdated := hasUpdated h1; isMounted := isMounted h1;
       rafHandle := true; rangeRef := rangeRef h1;
       effects := effects h1 |}
  else h.

(** The cleanup of the first effect: the frame callback is cancelled and
    the hook marked unmounted. *)
Definition unmount (h : Hook) : Hook :=
  {| has_dataSource := has_dataSource h;
     has_onConfigChange := has_onConfigChange h;
     dataWindow := dataWindow h; data_current := data_current h;
     hasUpdated := hasUpdated h; isMounted := false;
     rafHandle := false; rangeRef := rangeRef h;
     effects := effects h |}.

(** The hook's [setRange(from, to)]. *)
Definition hook_setRange (from' to' : Z) (h : Hook) : Hook * completion :=
  let h1 :=
    {| has_dataSource := has_dataSource h;
       has_onConfigChange := has_onConfigChange h;
       dataWindow := dataWindow h; data_current := data_current h;
       hasUpdated := hasUpdated h; isMounted := isMounted h;
       rafHandle := rafHandle h; rangeRef := mkRange from' to';
       effects := if has_dataSource h
                  then effects h ++ [dataSource_setRange from' to']
                  else effects h |} in
  let '(w, c) := setRange from' to' (dataWindow h1) in
  (with_window w h1, c).

(** Everything that can happen to a hook instance. *)
Inductive event : Type :=
| ev_message (message : DataSourceCallbackMessage)
| ev_tick
| ev_setRange (from to : Z)
| ev_unmount.

Definition step (e : event) (h : Hook) : Hook :=
  match e with
  | ev_message m => fst (datasourceMessageHandler m h)
  | ev_tick => refreshIfUpdated h
  | ev_setRange f t => fst (hook_setRange f t h)
  | ev_unmount => unmount h
  end.

Definition run (es : list event) (h : Hook) : Hook := foldl (fun h e => step e h) h es.

(** The lists published so far, oldest first. *)
Definition publishes (h : Hook) : list (JsArray.t DataSourceRow) :=
  omap (fun e => match e with forceUpdate d => Some d | _ => None end) (effects h).

(** A viewport update that carries rows (and a size the window accepts,
    when it carries one). *)
Definition is_row_update (m : DataSourceCallbackMessage) : bool :=
  match m with
  | msg_viewport_update None (Some _) => true
  | msg_viewport_update (Some n) (Some _) => 0 <=? n
  | _ => false
  end.

(** ** JavaScript numbers, as far as [handleScroll] needs them *)

(** An integer or one of the three special values.  The arithmetic of
    integers is exact below 2^53, and so is [Math.floor(x / y)] on them.
    A zero is the positive zero, as it is for operands that are not
    negative. *)
Module JsNum.

Inductive t : Type :=
| Fin (z : Z)
| PInf
| NInf
| NaN.

(** The infinity of the sign [s]; a zero sign gives NaN. *)
Definition inf_of_sign (s : Z) : t :=
  if 0 <? s then PInf else if s <? 0 then NInf else NaN.

Definition neg (x : t) : t :=
  match x with
  | Fin a => Fin (- a)
  | PInf => NInf
  | NInf => PInf
  | NaN => NaN
  end.

(** [x + y] *)
Definition add (x y : t) : t :=
  match x, y with
  | NaN, _ | _, NaN => NaN
  | Fin a, Fin b => Fin (a + b)
  | PInf, NInf | NInf, PInf => NaN
  | PInf, _ | _, PInf => PInf
  | NInf, _ | _, NInf => NInf
  end.

(** [x - y] *)
Definition sub (x y : t) : t := add x (neg y).

Definition sign (x : t) : Z :=
  match x with
  | Fin a => Z.sgn a
  | PInf => 1
  | NInf => -1
  | NaN => 0
  end.

(** [x * y] *)
Definition mul (x y : t) : t :=
  match x, y with
  | NaN, _ | _, NaN => NaN
  | Fin a, Fin b => Fin (a * b)
  | _, _ => inf_of_sign (sign x * sign y)
  end.

(** [Math.floor(x / y)] *)
Definition floor_div (x y : t) : t :=
  match x, y with
  | NaN, _ | _, NaN => NaN
  | Fin a, Fin b => if b =? 0 then inf_of_sign (Z.sgn a) else Fin (a / b)
  | Fin _, _ => Fin 0
  | _, Fin b => if b <? 0 then neg x else x
  | _, _ => NaN
  end.

(** [Math.abs(x)] *)
Definition abs (x : t) : t :=
  match x with
  | Fin a => Fin (Z.abs a)
  | PInf | NInf => PInf
  | NaN => NaN
  end.

(** [x < y]; false when an operand is NaN. *)
Definition lt (x y : t) : bool :=
  match x, y with
  | NaN, _ | _, NaN => false
  | Fin a, Fin b => a <? b
  | NInf, NInf | PInf, _ | _, NInf => false
  | _, _ => true
  end.

(** [x > y] *)
Definition gt (x y : t) : bool := lt y x.

(** [x <= y]; false when an operand is NaN. *)
Definition le (x y : t) : bool :=
  match x, y with
  | NaN, _ | _, NaN => false
  | _, _ => negb (lt y x)
  end.

(** [x >= y] *)
Definition ge (x y : t) : bool := le y x.

(** [Math.max(x, y)] *)
Definition max (x y : t) : t :=
  match x, y with
  | NaN, _ | _, NaN => NaN
  | _, _ => if lt x y then y else x
  end.

(** [Number.isFinite(x)] *)
Definition isFinite (x : t) : bool :=
  match x with Fin _ => true | _ => false end.

End JsNum.

(** ** hook useScroll *)

Record ScrollHookProps : Type := mkProps {
  bufferCount : JsNum.t;
  dataRowCount : JsNum.t;
  rowHeight : JsNum.t;
  visibleRowCount : JsNum.t
}.

Definition renderedRowsCount (p : ScrollHookProps) : JsNum.t :=
  JsNum.add (visibleRowCount p) (JsNum.mul (JsNum.Fin 2) (bufferCount p)).

Definition bufferHeight (p : ScrollHookProps) : JsNum.t :=
  JsNum.mul (bufferCount p) (rowHeight p).

(** [e.target]: the scroll offsets the event reports. *)
Record ScrollEvent : Type := mkScroll {
  scrollLeft : JsNum.t;
  scrollTop : JsNum.t
}.

(** What the hook keeps between events: the ref [scrollTopRef] (the anchor),
    the state [firstRowIndex], and the offsets of the element [table.current]
    ([None] while the ref is null). *)
Record ScrollState : Type := mkScrollState {
  scrollTopRef : JsNum.t;
  firstRowIndex : JsNum.t;
  table : option (JsNum.t * JsNum.t)
}.

Definition lastRowIndex (p : ScrollHookProps) (s : ScrollState) : JsNum.t :=
  JsNum.add (firstRowIndex s) (renderedRowsCount p).

(** [Math.abs(scrolledBy) > bufferHeight || scrollTop < bufferHeight] *)
Definition crossed (p : ScrollHookProps) (scrolledBy scrollTop : JsNum.t) : bool :=
  JsNum.gt (JsNum.abs scrolledBy) (bufferHeight p)
  || JsNum.lt scrollTop (bufferHeight p).

(** The local [firstRowIndex] of both branches, from the new anchor. *)
Definition firstRowIndex_of (p : ScrollHookProps) (anchor : JsNum.t) : JsNum.t :=
  JsNum.max (JsNum.Fin 0)
            (JsNum.sub (JsNum.floor_div anchor (rowHeight p)) (bufferCount p)).

(** The value handed to [setFirstRowIndex], the same in both branches. *)
Definition clamp_last (p : ScrollHookProps) (first : JsNum.t) : JsNum.t :=
  if JsNum.gt (JsNum.add first (renderedRowsCount p)) (dataRowCount p)
  then JsNum.sub (dataRowCount p) (renderedRowsCount p)
  else first.

(** The [while] loop of the backward branch.  [None]: the loop is still
    running when the fuel is spent. *)
Fixpoint snap_back (fuel : nat) (bufferHeight anchor scrollTop : JsNum.t) : option JsNum.t :=
  if JsNum.gt (JsNum.sub anchor scrollTop) bufferHeight then
    match fuel with
    | O => None
    | S fuel' => snap_back fuel' bufferHeight (JsNum.sub anchor bufferHeight) scrollTop
    end
  else Some anchor.

(** The last statement of [handleScroll]: the element follows the event. *)
Definition sync_table (e : ScrollEvent) (s : ScrollState) : ScrollState :=
  {| scrollTopRef := scrollTopRef s;
     firstRowIndex := firstRowIndex s;
     table := match table s with
              | Some _ => Some (scrollLeft e, scrollTop e)
              | None => None
              end |}.

Definition rerange (p : ScrollHookProps) (anchor : JsNum.t) (s : ScrollState) : ScrollState :=
  {| scrollTopRef := anchor;
     firstRowIndex := clamp_last p (firstRowIndex_of p anchor);
     table := table s |}.

(** [handleScroll(e)].  [None]: the handler is still in its loop when the
    fuel is spent. *)
Definition handleScroll (fuel : nat) (p : ScrollHookProps) (e : ScrollEvent)
    (s : ScrollState) : option ScrollState :=
  let scrolledBy := JsNum.sub (scrollTop e) (scrollTopRef s) in
  let isForwards := JsNum.gt scrolledBy (JsNum.Fin 0) in
  if isForwards && crossed p scrolledBy (scrollTop e) then
    let anchor :=
      JsNum.mul (JsNum.floor_div (scrollTop e) (bufferHeight p)) (bufferHeight p) in
    Some (sync_table e (rerange p anchor s))
  else if negb isForwards && crossed p scrolledBy (scrollTop e) then
    match snap_back fuel (bufferHeight p) (scrollTopRef s) (scrollTop e) with
    | Some anchor => Some (sync_table e (rerange p anchor s))
    | None => None
    end
  else Some (sync_table e s).

(** The window part of a viewport update that completes normally: the
    truncation for its size, then its rows. *)
Definition ingest (m : DataSourceCallbackMessage) (w : MovingWindow) : MovingWindow :=
  match m with
  | msg_viewport_update size rows =>
      let w1 := match size with
                | Some n => fst (setRowCount n w)
                | None => w
                end in
      match rows with
      | Some updates => add_all updates w1
      | None => w1
      end
  | _ => w
  end.

(** The order [byKey] sorts into: by render slot, ascending. *)
Definition render_ordered (row1 row2 : DataSourceRow) : Prop :=
  row_RENDER_IDX row1 <= row_RENDER_IDX row2.

(** The frame-clock ticks among a list of events. *)
Definition is_tick (e : event) : bool :=
  match e with ev_tick => true | _ => false end.

Definition ticks (es : list event) : nat :=
  length (List.filter is_tick es).

(** ** Sample data *)

Module Sample.

Definition row (index : Z) : DataSourceRow :=
  {| row_IDX := index; row_RENDER_IDX := index; row_cells := [index * 10] |}.

(** A window over [0, 4) holding the rows 1 and 3. *)
Definition window : MovingWindow :=
  {| data := [None; Some (row 1); None; Some (row 3)];
     rowCount := 0;
     range := mkRange 0 4 |}.

(** A fresh window over [0, 10), and what [setRowCount(5)] makes of it. *)
Definition fresh : MovingWindow :=
  {| data := replicate 10 None; rowCount := 0; range := mkRange 0 10 |}.

Definition truncated : MovingWindow := fst (setRowCount 5 fresh).

(** The fresh window after [add] of row 3. *)
Definition filled : MovingWindow := fst (add (row 3) fresh).

(** A mounted hook whose published list is behind its window. *)
Definition hook : Hook :=
  {| has_dataSource := true; has_onConfigChange := true;
     dataWindow := window; data_current := []; hasUpdated := false;
     isMounted := true; rafHandle := true; rangeRef := mkRange 0 4;
     effects := [] |}.

(** The scroll hook before the first event. *)
Definition at_top : ScrollState :=
  {| scrollTopRef := JsNum.Fin 0; firstRowIndex := JsNum.Fin 0; table := None |}.

(** The scroll hook after a scroll to 250 with [props] below. *)
Definition scrolled : ScrollState :=
  {| scrollTopRef := JsNum.Fin 200; firstRowIndex := JsNum.Fin 5;
     table := Some (JsNum.Fin 0, JsNum.Fin 250) |}.

(** The scroll hook once its anchor is NaN. *)
Definition stuck : ScrollState :=
  {| scrollTopRef := JsNum.NaN; firstRowIndex := JsNum.NaN; table := None |}.

Definition scroll_to (top : Z) : ScrollEvent :=
  {| scrollLeft := JsNum.Fin 0; scrollTop := JsNum.Fin top |}.

(** Rows of 20 pixels, 5 buffered on each side of 10 visible ones, over
    100 rows. *)
Definition props : ScrollHookProps :=
  {| bufferCount := JsNum.Fin 5; dataRowCount := JsNum.Fin 100;
     rowHeight := JsNum.Fin 20; visibleRowCount := JsNum.Fin 10 |}.

(** The same with rows of height 0. *)
Definition flat_props : ScrollHookProps :=
  {| bufferCount := JsNum.Fin 5; dataRowCount := JsNum.Fin 100;
     rowHeight := JsNum.Fin 0; visibleRowCount := JsNum.Fin 10 |}.

(** No buffer rows: 20 visible rows of 20 pixels over 100 rows. *)
Definition unbuffered_props : ScrollHookProps :=
  {| bufferCount := JsNum.Fin 0; dataRowCount := JsNum.Fin 100;
     rowHeight := JsNum.Fin 20; visibleRowCount := JsNum.Fin 20 |}.

End Sample.

(** * Properties *)

(** ** Arrays *)

Section array_facts.
Context {A : Type}.
Implicit Types (a : JsArray.t A) (k j : Z) (v : A).

Lemma get_negative a k : k < 0 -> JsArray.get a k = None.
Proof. intros Hk. unfold JsArray.get. by rewrite (proj2 (Z.ltb_lt k 0) Hk). Qed.

Lemma get_lookup a (i : nat) : JsArray.get a (Z.of_nat i) = mjoin (a !! i).
Proof.
  unfold JsArray.get.
  rewrite (proj2 (Z.ltb_ge _ 0)) by lia. by rewrite Nat2Z.id.
Qed.

Lemma get_Some_lookup a k v :
  JsArray.get a k = Some v <-> 0 <= k /\ a !! Z.to_nat k = Some (Some v).
Proof.
  unfold JsArray.get. destruct (Z.ltb_spec k 0) as [Hk|Hk].
  - split; [done | lia].
  - destruct (a !! Z.to_nat k) as [[x|]|]; simpl; split; try done.
    + by intros [= ->].
    + by intros [_ [= ->]].
    + by intros [_ ?].
    + by intros [_ ?].
Qed.

Lemma get_beyond a k : JsArray.len a <= k -> JsArray.get a k = None.
Proof.
  unfold JsArray.len, JsArray.get. intros Hk.
  destruct (Z.ltb_spec k 0); [done|].
  rewrite (proj2 (lookup_ge_None a (Z.to_nat k))); [done | lia].
Qed.

Lemma get_set_eq a k v : 0 <= k -> JsArray.get (JsArray.set a k v) k = Some v.
Proof.
  intros Hk. apply get_Some_lookup. split; [done|].
  unfold JsArray.set. rewrite (proj2 (Z.ltb_ge k 0)) by done.
  destruct (Nat.ltb_spec (Z.to_nat k) (length a)) as [Hlt|Hge].
  - by apply list_lookup_insert_eq.
  - rewrite lookup_app_r by done.
    rewrite (list_lookup_middle _ [] (Some v)); [done|].
    by rewrite length_replicate.
Qed.

Lemma get_set_ne a k j v : j <> k -> JsArray.get (JsArray.set a k v) j = JsArray.get a j.
Proof.
  intros Hne. unfold JsArray.set.
  destruct (Z.ltb_spec k 0) as [Hk|Hk]; [done|].
  unfold JsArray.get. destruct (Z.ltb_spec j 0) as [Hj|Hj]; [done|].
  assert (Z.to_nat k <> Z.to_nat j) as Hn by lia.
  destruct (Nat.ltb_spec (Z.to_nat k) (length a)) as [Hlt|Hge].
  - by rewrite list_lookup_insert_ne.
  - rewrite lookup_app.
    destruct (a !! Z.to_nat j) as [x|] eqn:Hj'; [done|].
    apply lookup_ge_None in Hj'. simpl.
    rewrite lookup_app.
    destruct (replicate _ None !! _) as [y|] eqn:Hr.
    + apply lookup_replicate in Hr as [-> _]. done.
    + apply lookup_ge_None in Hr. rewrite length_replicate in Hr.
      rewrite length_replicate.
      destruct (Z.to_nat j - length a - (Z.to_nat k - length a))%nat as [|m] eqn:Hd;
        [lia | done].
Qed.

Lemma length_set_within a k v :
  0 <= k < JsArray.len a -> length (JsArray.set a k v) = length a.
Proof.
  unfold JsArray.len, JsArray.set. intros [Hk Hlt].
  rewrite (proj2 (Z.ltb_ge k 0)) by done.
  rewrite (proj2 (Nat.ltb_lt (Z.to_nat k) (length a))) by lia.
  apply length_insert.
Qed.

Lemma len_set a k v :
  0 <= k -> JsArray.len (JsArray.set a k v) = Z.max (JsArray.len a) (k + 1).
Proof.
  unfold JsArray.len, JsArray.set. intros Hk.
  rewrite (proj2 (Z.ltb_ge k 0)) by done.
  destruct (Nat.ltb_spec (Z.to_nat k) (length a)) as [Hlt|Hge].
  - rewrite length_insert. lia.
  - rewrite !length_app, length_replicate. simpl. lia.
Qed.

Lemma new_array_Some (n : Z) a :
  JsArray.new_array n = Some a ->
  JsArray.valid_length n = true /\ a = replicate (Z.to_nat n) None.
Proof.
  unfold JsArray.new_array. destruct (JsArray.valid_length n); [|done].
  by intros [= <-].
Qed.

Lemma valid_length_spec (n : Z) :
  JsArray.valid_length n = true <-> 0 <= n <= JsArray.MAX_LENGTH.
Proof. unfold JsArray.valid_length. rewrite andb_true_iff. lia. Qed.

Lemma new_array_valid (n : Z) :
  JsArray.valid_length n = true ->
  JsArray.new_array (A:=A) n = Some (replicate (Z.to_nat n) None).
Proof. unfold JsArray.new_array. by intros ->. Qed.

Lemma get_holes (n : nat) k : JsArray.get (replicate n (@None A)) k = None.
Proof.
  unfold JsArray.get. destruct (k <? 0); [done|].
  destruct (replicate n None !! Z.to_nat k) as [x|] eqn:Hx; [|done].
  by apply lookup_replicate in Hx as [-> _].
Qed.

Lemma len_holes (n : Z) : 0 <= n -> JsArray.len (replicate (Z.to_nat n) (@None A)) = n.
Proof. intros Hn. unfold JsArray.len. rewrite length_replicate. lia. Qed.

Lemma set_length_valid a (n : Z) :
  JsArray.valid_length n = true ->
  JsArray.set_length a n
  = Some (take (Z.to_nat n) a ++ replicate (Z.to_nat n - length a)%nat None).
Proof. unfold JsArray.set_length. by intros ->. Qed.

End array_facts.

(** ** MovingWindow *)

Lemma isWithin_spec (r : WindowRange) (i : Z) :
  isWithin r i = true <-> from r <= i < to r.
Proof. unfold isWithin. rewrite andb_true_iff. lia. Qed.

Lemma isWithin_false (r : WindowRange) (i : Z) :
  isWithin r i = false <-> ~ (from r <= i < to r).
Proof. rewrite <- isWithin_spec. by destruct (isWithin r i). Qed.

(** [overlap] yields the indices two ranges share. *)
Lemma overlap_spec (r : WindowRange) (f t i : Z) :
  fst (overlap r f t) <= i < snd (overlap r f t)
  <-> (from r <= i < to r) /\ (f <= i < t).
Proof. unfold overlap. simpl. lia. Qed.

Lemma getAtIndex_Some (i : Z) (w : MovingWindow) (row : DataSourceRow) :
  getAtIndex i w = Some row
  <-> (from (range w) <= i < to (range w))
      /\ data w !! Z.to_nat (i - from (range w)) = Some (Some row).
Proof.
  unfold getAtIndex. destruct (isWithin (range w) i) eqn:Hin.
  - apply isWithin_spec in Hin. rewrite get_Some_lookup. intuition lia.
  - apply isWithin_false in Hin. split; [done | tauto].
Qed.

Lemma getAtIndex_outside (i : Z) (w : MovingWindow) :
  ~ (from (range w) <= i < to (range w)) -> getAtIndex i w = None.
Proof. intros H. unfold getAtIndex. by rewrite (proj2 (isWithin_false _ _) H). Qed.

(** What the copy loop of [setRange] leaves in slot [k] of the new buffer:
    the row the old window has at [k + from'] when the loop visits that
    index and finds a row there, and what the slot held before otherwise. *)
Lemma get_copy_rows (w : MovingWindow) (from' : Z) (l : list Z)
    (newData : JsArray.t DataSourceRow) (k : Z) :
  0 <= k ->
  JsArray.get (foldl (copy_row w from') newData l) k
  = if decide (k + from' ∈ l)
    then match getAtIndex (k + from') w with
         | Some row => Some row
         | None => JsArray.get newData k
         end
    else JsArray.get newData k.
Proof.
  intros Hk. revert newData. induction l as [|i l IH]; intros newData; cbn [foldl].
  - rewrite decide_False; [done | by apply not_elem_of_nil].
  - rewrite IH.
    assert (JsArray.get (copy_row w from' newData i) k
            = if decide (i = k + from')
              then match getAtIndex (k + from') w with
                   | Some row => Some row
                   | None => JsArray.get newData k
                   end
              else JsArray.get newData k) as ->.
    { unfold copy_row. destruct (decide (i = k + from')) as [Hi|Hi].
      - subst i. destruct (getAtIndex (k + from') w); [|done].
        replace (k + from' - from') with k by lia. by apply get_set_eq.
      - destruct (getAtIndex i w); [|done]. apply get_set_ne. lia. }
    destruct (decide (i = k + from')) as [->|Hne].
    + rewrite (decide_True (P := _ ∈ _ :: _)) by apply list_elem_of_here.
      case_decide; by destruct (getAtIndex (k + from') w).
    + assert (k + from' ∈ i :: l <-> k + from' ∈ l) as Hiff.
      { rewrite elem_of_cons. split; [intros [?|?]; [congruence | done] | by right]. }
      destruct (decide (k + from' ∈ l)) as [Hl|Hl].
      * by rewrite decide_True by (by apply Hiff).
      * by rewrite decide_False by (by rewrite Hiff).
Qed.

(** The copy loop never changes the length of a buffer that has a slot for
    every index it visits. *)
Lemma length_copy_rows (w : MovingWindow) (from' : Z) (l : list Z)
    (newData : JsArray.t DataSourceRow) :
  Forall (fun i => 0 <= i - from' < JsArray.len newData) l ->
  length (foldl (copy_row w from') newData l) = length newData.
Proof.
  revert newData. induction l as [|i l IH]; intros newData Hl; [done|].
  apply Forall_cons in Hl as [Hi Hl]. simpl.
  assert (length (copy_row w from' newData i) = length newData) as Hlen.
  { unfold copy_row. destruct (getAtIndex i w); [|done].
    by apply length_set_within. }
  rewrite IH; [done|].
  unfold JsArray.len in *. by rewrite Hlen.
Qed.

(** [setRange] to a range that differs and can be allocated, written out. *)
Lemma setRange_changed (f t : Z) (w : MovingWindow) :
  (f, t) <> (from (range w), to (range w)) ->
  JsArray.valid_length (t - f) = true ->
  setRange f t w
  = ({| data := foldl (copy_row w f) (replicate (Z.to_nat (t - f)) None)
                      (seqZ (Z.max f (from (range w)))
                            (Z.min t (to (range w)) - Z.max f (from (range w))));
        rowCount := rowCount w;
        range := mkRange f t |}, Normal).
Proof.
  intros Hne Hvalid. unfold setRange.
  assert (negb (f =? from (range w)) || negb (t =? to (range w)) = true) as ->.
  { destruct (Z.eqb_spec f (from (range w))), (Z.eqb_spec t (to (range w)));
      try done. subst. done. }
  unfold overlap. by rewrite new_array_valid.
Qed.

Lemma setRange_same (w : MovingWindow) :
  setRange (from (range w)) (to (range w)) w = (w, Normal).
Proof. unfold setRange. by rewrite !Z.eqb_refl. Qed.

Lemma setRange_invalid (f t : Z) (w : MovingWindow) :
  (f, t) <> (from (range w), to (range w)) ->
  JsArray.valid_length (t - f) = false ->
  setRange f t w = (w, Throw_RangeError).
Proof.
  intros Hne Hinv. unfold setRange.
  assert (negb (f =? from (range w)) || negb (t =? to (range w)) = true) as ->.
  { destruct (Z.eqb_spec f (from (range w))), (Z.eqb_spec t (to (range w)));
      try done. subst. done. }
  unfold overlap, JsArray.new_array. by rewrite Hinv.
Qed.

(** The window after a range change, read through [getAtIndex]. *)
Lemma getAtIndex_setRange (f t : Z) (w : MovingWindow) (i : Z) :
  (f, t) <> (from (range w), to (range w)) ->
  JsArray.valid_length (t - f) = true ->
  getAtIndex i (fst (setRange f t w))
  = if decide ((from (range w) <= i < to (range w)) /\ (f <= i < t))
    then getAtIndex i w else None.
Proof.
  intros Hne Hvalid. rewrite setRange_changed by done.
  unfold getAtIndex at 1. cbn [fst data range from to].
  destruct (isWithin (mkRange f t) i) eqn:Hin.
  - apply isWithin_spec in Hin. simpl in Hin.
    rewrite get_copy_rows by lia.
    replace (i - f + f) with i by lia.
    rewrite get_holes.
    destruct (decide (i ∈ seqZ _ _)) as [Hel|Hel];
      rewrite elem_of_seqZ in Hel.
    + rewrite decide_True by lia. by destruct (getAtIndex i w).
    + case_decide as Hd; [|done].
      symmetry. apply getAtIndex_outside. lia.
  - apply isWithin_false in Hin. simpl in Hin.
    by rewrite decide_False by lia.
Qed.

Lemma len_setRange (f t : Z) (w : MovingWindow) :
  (f, t) <> (from (range w), to (range w)) ->
  JsArray.valid_length (t - f) = true ->
  JsArray.len (data (fst (setRange f t w))) = t - f.
Proof.
  intros Hne Hvalid. rewrite setRange_changed by done. simpl.
  apply valid_length_spec in Hvalid.
  unfold JsArray.len. rewrite length_copy_rows.
  - rewrite length_replicate. lia.
  - apply Forall_seqZ. intros i Hi. rewrite len_holes; lia.
Qed.

Lemma MovingWindow_new_Some (f t : Z) (w : MovingWindow) :
  MovingWindow_new f t = Some w ->
  JsArray.valid_length (t - f) = true
  /\ w = {| data := replicate (Z.to_nat (t - f)) None; rowCount := 0;
            range := mkRange f t |}.
Proof.
  unfold MovingWindow_new.
  destruct (JsArray.new_array (t - f)) as [d|] eqn:Hd; [|done].
  apply new_array_Some in Hd as [Hv ->]. by intros [= <-].
Qed.

Lemma add_within (row : DataSourceRow) (w : MovingWindow) :
  from (range w) <= row_IDX row < to (range w) ->
  add row w
  = ({| data := JsArray.set (data w) (row_IDX row - from (range w)) row;
        rowCount := rowCount w; range := range w |}, Normal).
Proof.
  intros Hin. unfold add, isWithinRange.
  by rewrite (proj2 (isWithin_spec _ _) Hin).
Qed.

Lemma add_outside (row : DataSourceRow) (w : MovingWindow) :
  ~ (from (range w) <= row_IDX row < to (range w)) -> add row w = (w, Normal).
Proof.
  intros Hout. unfold add, isWithinRange.
  by rewrite (proj2 (isWithin_false _ _) Hout).
Qed.

(** [add] is an upsert: afterwards the row is what [getAtIndex] returns at
    its index when that index is in the range, and every other index reads
    as before. *)
Lemma getAtIndex_add (row : DataSourceRow) (w : MovingWindow) (k : Z) :
  getAtIndex k (fst (add row w))
  = if decide (k = row_IDX row /\ from (range w) <= k < to (range w))
    then Some row
    else getAtIndex k w.
Proof.
  destruct (decide (from (range w) <= row_IDX row < to (range w))) as [Hin|Hout].
  - rewrite add_within by done. unfold getAtIndex. cbn [fst data range].
    destruct (isWithin (range w) k) eqn:Hk.
    + apply isWithin_spec in Hk.
      destruct (decide (k = row_IDX row)) as [->|Hne].
      * rewrite decide_True by done. apply get_set_eq. lia.
      * rewrite decide_False by tauto. apply get_set_ne. lia.
    + apply isWithin_false in Hk. by rewrite decide_False by tauto.
  - rewrite add_outside by done. cbn [fst].
    rewrite decide_False; [done|]. intros [-> ?]. done.
Qed.

(** Adding the same row twice is adding it once. *)
Lemma add_idempotent (row : DataSourceRow) (w : MovingWindow) :
  forall k : Z,
    getAtIndex k (fst (add row (fst (add row w)))) = getAtIndex k (fst (add row w)).
Proof.
  intros k. rewrite (getAtIndex_add row (fst (add row w))).
  assert (range (fst (add row w)) = range w) as ->.
  { unfold add. by destruct (isWithinRange _ _). }
  rewrite getAtIndex_add. by case_decide.
Qed.

Lemma setRange_cases (f t : Z) (w : MovingWindow) :
  setRange f t w = (w, Normal)
  \/ setRange f t w = (w, Throw_RangeError)
  \/ ((f, t) <> (from (range w), to (range w))
      /\ JsArray.valid_length (t - f) = true).
Proof.
  destruct (decide ((f, t) = (from (range w), to (range w)))) as [[= -> ->]|Hne].
  - left. apply setRange_same.
  - destruct (JsArray.valid_length (t - f)) eqn:Hv.
    + right. right. done.
    + right. left. by apply setRange_invalid.
Qed.

(** [setRowCount] either throws and leaves the window as it is, or keeps
    the buffer, or cuts it down to its first [n] slots. *)
Lemma setRowCount_cases (n : Z) (w : MovingWindow) :
  setRowCount n w = (w, Throw_RangeError)
  \/ (JsArray.len (data w) <= n
      /\ setRowCount n w
         = ({| data := data w; rowCount := n; range := range w |}, Normal))
  \/ (0 <= n < JsArray.len (data w)
      /\ setRowCount n w
         = ({| data := take (Z.to_nat n) (data w); rowCount := n;
               range := range w |}, Normal)).
Proof.
  unfold setRowCount. destruct (Z.ltb_spec n (JsArray.len (data w))) as [Hlt|Hge].
  - unfold JsArray.set_length.
    destruct (JsArray.valid_length n) eqn:Hv; [|by left].
    apply valid_length_spec in Hv. right. right. split; [lia|].
    unfold JsArray.len in Hlt.
    replace (Z.to_nat n - length (data w))%nat with 0%nat by lia.
    simpl. by rewrite app_nil_r.
  - right. left. done.
Qed.

Lemma fits_new (f t : Z) (w : MovingWindow) :
  MovingWindow_new f t = Some w -> fits w /\ JsArray.len (data w) = range_size w.
Proof.
  intros [Hv ->]%MovingWindow_new_Some. unfold fits, range_size. simpl.
  pose proof (proj1 (valid_length_spec _) Hv).
  rewrite len_holes by lia. split; [split|]; [done | lia | done].
Qed.

Lemma fits_reachable (w : MovingWindow) : reachable w -> fits w.
Proof.
  induction 1 as [f t w Hnew|row w _ IH|f t w _ IH|n w _ IH].
  - by apply fits_new in Hnew as [? _].
  - destruct IH as [Hv Hlen].
    destruct (decide (from (range w) <= row_IDX row < to (range w))) as [Hin|Hout].
    + rewrite add_within by done. unfold fits, range_size in *. simpl.
      split; [done|]. rewrite len_set by lia. lia.
    + rewrite add_outside by done. done.
  - destruct (setRange_cases f t w) as [->| [->| [Hne Hv]]]; [done..|].
    split.
    + rewrite setRange_changed by done. done.
    + rewrite len_setRange by done.
      rewrite setRange_changed by done. unfold range_size. simpl. lia.
  - destruct IH as [Hv Hlen].
    destruct (setRowCount_cases n w) as [->| [[_ ->]| [Hn ->]]]; [done..|].
    unfold fits, range_size, JsArray.len in *. simpl. split; [done|].
    rewrite length_take. lia.
Qed.

Lemma slots_indexed_getAtIndex (w : MovingWindow) (k : Z) (row : DataSourceRow) :
  slots_indexed w -> getAtIndex k w = Some row -> row_IDX row = k.
Proof.
  intros Hinv [Hin Hrow]%getAtIndex_Some.
  apply Hinv in Hrow. lia.
Qed.

Lemma slots_indexed_reachable (w : MovingWindow) : reachable w -> slots_indexed w.
Proof.
  induction 1 as [f t w Hnew|row0 w _ IH|f t w _ IH|n w _ IH]; intros i row Hrow.
  - apply MovingWindow_new_Some in Hnew as [_ ->]. simpl in Hrow.
    by apply lookup_replicate in Hrow as [? _].
  - destruct (decide (from (range w) <= row_IDX row0 < to (range w))) as [Hin|Hout].
    + rewrite add_within in * by done. simpl in *.
      assert (JsArray.get (JsArray.set (data w) (row_IDX row0 - from (range w)) row0)
                          (Z.of_nat i) = Some row) as Hget.
      { rewrite get_lookup. by rewrite Hrow. }
      destruct (decide (Z.of_nat i = row_IDX row0 - from (range w))) as [Heq|Hne].
      * rewrite Heq, get_set_eq in Hget by lia. injection Hget as <-. lia.
      * rewrite get_set_ne in Hget by done.
        apply get_Some_lookup in Hget as [_ Hget].
        rewrite Nat2Z.id in Hget. by apply IH.
    + rewrite add_outside in * by done. by apply IH.
  - destruct (setRange_cases f t w) as [Hs| [Hs| [Hne Hv]]];
      [rewrite Hs in *; by apply IH..|].
    rewrite setRange_changed in * by done. simpl in *.
    assert (JsArray.get
              (foldl (copy_row w f) (replicate (Z.to_nat (t - f)) None)
                 (seqZ (Z.max f (from (range w)))
                    (Z.min t (to (range w)) - Z.max f (from (range w)))))
              (Z.of_nat i) = Some row) as Hget.
    { rewrite get_lookup. by rewrite Hrow. }
    rewrite get_copy_rows, get_holes in Hget by lia.
    case_decide; [|done].
    destruct (getAtIndex (Z.of_nat i + f) w) as [row'|] eqn:Hrow'; [|done].
    injection Hget as ->.
    apply slots_indexed_getAtIndex in Hrow'; [lia | done].
  - destruct (setRowCount_cases n w) as [Hs| [[_ Hs]| [Hn Hs]]];
      rewrite Hs in *; simpl in *; [by apply IH..|].
    apply lookup_take_Some in Hrow as [Hrow _]. by apply IH.
Qed.

(** *** The claims about the window *)

(** C1, as amended.  [setRange(f2, t2)] on a window of range [f1, t1), for
    a range [f2, t2) that can be allocated ([0 <= t2 - f2 <= 2^32 - 1];
    [new Array] throws otherwise).  When the two ranges are equal the call
    changes nothing.  Otherwise it completes normally, the range is [f2, t2)
    afterwards, a row populated at an absolute index [i] of both ranges is
    found unchanged in slot [i - f2] of the new buffer (and through
    [getAtIndex]), and [getAtIndex] is absent at every index that is not in
    both ranges. *)
Theorem setRange_preserves_overlap (w : MovingWindow) (f2 t2 : Z) :
  JsArray.valid_length (t2 - f2) = true ->
  let f1 := from (range w) in
  let t1 := to (range w) in
  let w' := fst (setRange f2 t2 w) in
  ((f2, t2) = (f1, t1) -> setRange f2 t2 w = (w, Normal))
  /\ ((f2, t2) <> (f1, t1) ->
      snd (setRange f2 t2 w) = Normal
      /\ range w' = mkRange f2 t2
      /\ (forall (i : Z) (row : DataSourceRow),
            f1 <= i < t1 -> f2 <= i < t2 ->
            JsArray.get (data w) (i - f1) = Some row ->
            JsArray.get (data w') (i - f2) = Some row
            /\ getAtIndex i w' = Some row)
      /\ (forall i : Z,
            ~ (f1 <= i < t1 /\ f2 <= i < t2) -> getAtIndex i w' = None)).
Proof.
  intros Hvalid f1 t1 w'. split.
  - intros [= -> ->]. apply setRange_same.
  - intros Hne. split; [|split; [|split]].
    + by rewrite setRange_changed.
    + subst w'. by rewrite setRange_changed.
    + intros i row H1 H2 Hrow.
      assert (getAtIndex i w = Some row) as Hold.
      { unfold getAtIndex. by rewrite (proj2 (isWithin_spec _ _) H1). }
      assert (getAtIndex i w' = Some row) as Hnew.
      { subst w'. rewrite getAtIndex_setRange by done.
        by rewrite decide_True by done. }
      split; [|done].
      unfold getAtIndex in Hnew. subst w'.
      rewrite setRange_changed in * by done. cbn [fst data range from] in *.
      by rewrite (proj2 (isWithin_spec (mkRange f2 t2) i) H2) in Hnew.
    + intros i Hout. subst w'. rewrite getAtIndex_setRange by done.
      by rewrite decide_False by done.
Qed.

(** C3, as amended.  The buffer of a reachable window is never longer than
    its range; its length is the size of the range after the constructor
    and after every [setRange] that changes the range; [add] keeps the
    length equal to the size of the range when it is; and [setRowCount(n)],
    [n >= 0], leaves a buffer of length [min(length, n)], which is shorter
    than the range when [n] is smaller than the range. *)
Theorem buffer_length_within_range (w : MovingWindow) :
  reachable w ->
  JsArray.len (data w) <= range_size w
  /\ (forall (f t : Z) (w0 : MovingWindow),
        MovingWindow_new f t = Some w0 -> JsArray.len (data w0) = range_size w0)
  /\ (forall f t : Z,
        (f, t) <> (from (range w), to (range w)) ->
        JsArray.valid_length (t - f) = true ->
        JsArray.len (data (fst (setRange f t w)))
        = range_size (fst (setRange f t w)))
  /\ (forall row : DataSourceRow,
        JsArray.len (data w) = range_size w ->
        JsArray.len (data (fst (add row w))) = range_size (fst (add row w)))
  /\ (forall n : Z,
        0 <= n ->
        JsArray.len (data (fst (setRowCount n w))) = Z.min (JsArray.len (data w)) n
        /\ range_size (fst (setRowCount n w)) = range_size w).
Proof.
  intros [Hv Hlen]%fits_reachable. split; [done|]. split; [|split; [|split]].
  - intros f t w0 Hnew. by apply fits_new in Hnew as [_ ?].
  - intros f t Hne Hvalid. rewrite len_setRange by done.
    rewrite setRange_changed by done. unfold range_size. simpl. lia.
  - intros row Heq.
    destruct (decide (from (range w) <= row_IDX row < to (range w))) as [Hin|Hout].
    + rewrite add_within by done. unfold range_size in *. simpl.
      rewrite len_set by lia. lia.
    + by rewrite add_outside.
  - intros n Hn.
    destruct (setRowCount_cases n w) as [Hs| [[Hge ->]| [Hlt ->]]].
    + (* a valid length is never refused *)
      exfalso. unfold setRowCount in Hs.
      destruct (Z.ltb_spec n (JsArray.len (data w))) as [Hlt|Hge]; [|done].
      rewrite set_length_valid in Hs; [done|].
      apply valid_length_spec. apply valid_length_spec in Hv. lia.
    + unfold range_size. simpl. lia.
    + unfold range_size, JsArray.len in *. simpl. rewrite length_take. lia.
Qed.

(** C7. A row whose index field lies outside [range.from, range.to) is
    dropped by [add]: buffer, range and rowCount are as they were, and the
    call completes normally. *)
Theorem add_outside_range_is_noop (row : DataSourceRow) (w : MovingWindow) :
  ~ (from (range w) <= row_IDX row < to (range w)) ->
  add row w = (w, Normal).
Proof. apply add_outside. Qed.

(** C8. In every reachable window a populated slot [i] holds a row whose
    index field is [range.from + i]; so a row that [getAtIndex(k)] returns
    has index field [k]. *)
Theorem slot_index_invariant (w : MovingWindow) :
  reachable w ->
  (forall (i : nat) (row : DataSourceRow),
     data w !! i = Some (Some row) -> row_IDX row = from (range w) + Z.of_nat i)
  /\ (forall (k : Z) (row : DataSourceRow),
        getAtIndex k w = Some row -> row_IDX row = k).
Proof.
  intros Hinv%slots_indexed_reachable. split; [done|].
  intros k row. by apply slots_indexed_getAtIndex.
Qed.

(** C10. [add] leaves range and rowCount alone, [setRange] leaves rowCount
    alone, [setRowCount] leaves the range alone; this also when the call
    throws. *)
Theorem window_frame (w : MovingWindow) :
  (forall row : DataSourceRow,
     range (fst (add row w)) = range w /\ rowCount (fst (add row w)) = rowCount w)
  /\ (forall f t : Z, rowCount (fst (setRange f t w)) = rowCount w)
  /\ (forall n : Z, range (fst (setRowCount n w)) = range w).
Proof.
  split; [|split].
  - intros row. unfold add. by destruct (isWithinRange _ _).
  - intros f t. destruct (setRange_cases f t w) as [->| [->| [Hne Hv]]]; [done..|].
    by rewrite setRange_changed.
  - intros n. by destruct (setRowCount_cases n w) as [->| [[_ ->]| [_ ->]]].
Qed.

Lemma setRange_preserves_overlap_witness :
  JsArray.valid_length (6 - 2) = true
  /\ getAtIndex 3 (fst (setRange 2 6 Sample.window)) = Some (Sample.row 3)
  /\ getAtIndex 1 (fst (setRange 2 6 Sample.window)) = None.
Proof.
  split; [reflexivity|].
  destruct (setRange_preserves_overlap Sample.window 2 6 eq_refl) as [_ H].
  destruct H as (_ & _ & Hkept & Hdropped); [discriminate|].
  split.
  - apply (Hkept 3 (Sample.row 3)); [simpl; lia | lia | reflexivity].
  - apply Hdropped. simpl. lia.
Defined.

(** C1 as stated fails: [setRange(5, 3)] on the window over [0, 4) throws
    from [new Array(-2)]; the range is still [0, 4) afterwards, not [5, 3). *)
Lemma setRange_inverted_keeps_old_range :
  snd (setRange 5 3 Sample.window) = Throw_RangeError
  /\ range (fst (setRange 5 3 Sample.window)) = mkRange 0 4
  /\ Z.eqb (from (range (fst (setRange 5 3 Sample.window)))) 5 = false.
Proof. by vm_compute. Qed.

Lemma reachable_fresh : reachable Sample.fresh.
Proof. by apply (reach_new 0 10). Qed.

Lemma buffer_length_within_range_witness :
  reachable Sample.fresh
  /\ JsArray.len (data Sample.fresh) <= range_size Sample.fresh.
Proof.
  split; [apply reachable_fresh|].
  apply (buffer_length_within_range Sample.fresh reachable_fresh).
Defined.

(** C3 as stated fails: [setRowCount(5)] on a fresh window over [0, 10)
    leaves a buffer of 5 slots for a range of 10. *)
Lemma setRowCount_breaks_length_invariant :
  reachable Sample.truncated
  /\ snd (setRowCount 5 Sample.fresh) = Normal
  /\ JsArray.len (data Sample.truncated) = 5
  /\ to (range Sample.truncated) - from (range Sample.truncated) = 10.
Proof.
  split; [|by vm_compute].
  apply reach_setRowCount, reachable_fresh.
Qed.

Lemma add_outside_range_is_noop_witness :
  ~ (from (range Sample.window) <= row_IDX (Sample.row 7) < to (range Sample.window))
  /\ add (Sample.row 7) Sample.window = (Sample.window, Normal).
Proof.
  assert (~ (from (range Sample.window) <= row_IDX (Sample.row 7)
             < to (range Sample.window))) as Hout by (simpl; lia).
  split; [exact Hout|].
  exact (add_outside_range_is_noop (Sample.row 7) Sample.window Hout).
Defined.

Lemma slot_index_invariant_witness :
  reachable Sample.filled
  /\ getAtIndex 3 Sample.filled = Some (Sample.row 3)
  /\ row_IDX (Sample.row 3) = 3.
Proof.
  assert (reachable Sample.filled) as Hreach
    by apply reach_add, reachable_fresh.
  assert (getAtIndex 3 Sample.filled = Some (Sample.row 3)) as Hrow
    by reflexivity.
  split; [exact Hreach|]. split; [exact Hrow|].
  exact (proj2 (slot_index_invariant Sample.filled Hreach) 3 (Sample.row 3) Hrow).
Defined.

(** ** The hook *)

Lemma publishes_app (h : Hook) (e : effect) :
  publishes (log e h)
  = publishes h ++ match e with forceUpdate d => [d] | _ => [] end.
Proof.
  unfold publishes, log. simpl. rewrite omap_app. by destruct e.
Qed.

(** [setRowCount] accepts every size that is not negative, on a window
    whose buffer fits its range. *)
Lemma setRowCount_normal (n : Z) (w : MovingWindow) :
  fits w -> 0 <= n -> snd (setRowCount n w) = Normal.
Proof.
  intros [Hv Hlen] Hn.
  destruct (setRowCount_cases n w) as [Hs| [[_ ->]| [_ ->]]]; [|done..].
  exfalso. unfold setRowCount in Hs.
  destruct (Z.ltb_spec n (JsArray.len (data w))) as [Hlt|Hge]; [|done].
  rewrite set_length_valid in Hs; [done|].
  apply valid_length_spec. apply valid_length_spec in Hv. lia.
Qed.

Lemma reachable_add_all (updates : list DataSourceRow) (w : MovingWindow) :
  reachable w -> reachable (add_all updates w).
Proof.
  revert w. induction updates as [|row updates IH]; intros w Hw; [done|].
  apply IH. by apply reach_add.
Qed.

Lemma range_add_all (updates : list DataSourceRow) (w : MovingWindow) :
  range (add_all updates w) = range w.
Proof.
  unfold add_all. revert w.
  induction updates as [|row updates IH]; intros w; cbn [foldl]; [done|].
  rewrite IH. unfold add. by destruct (isWithinRange _ _).
Qed.

(** The net effect of a batch of rows: at every index of the range the last
    row of the batch with that index, and the row the window had where the
    batch has none. *)
Lemma getAtIndex_add_all (updates : list DataSourceRow) (w : MovingWindow) (k : Z) :
  getAtIndex k (add_all updates w)
  = match last (filter (fun row => row_IDX row = k) updates) with
    | Some row => if isWithin (range w) k then Some row else None
    | None => getAtIndex k w
    end.
Proof.
  induction updates as [|row updates IH] using rev_ind; [done|].
  assert (add_all (updates ++ [row]) w = fst (add row (add_all updates w))) as ->.
  { unfold add_all. by rewrite foldl_app. }
  rewrite getAtIndex_add, filter_app, range_add_all.
  destruct (decide (row_IDX row = k)) as [<-|Hne].
  - rewrite filter_cons_True by done. rewrite filter_nil, last_snoc.
    destruct (isWithin (range w) (row_IDX row)) eqn:Hin.
    + apply isWithin_spec in Hin. by rewrite decide_True.
    + apply isWithin_false in Hin. rewrite decide_False by tauto.
      apply getAtIndex_outside. by rewrite range_add_all.
  - rewrite filter_cons_False by done. rewrite filter_nil, app_nil_r.
    rewrite decide_False; [done|]. intros [-> _]. done.
Qed.

Lemma reachable_ingest (m : DataSourceCallbackMessage) (w : MovingWindow) :
  reachable w -> reachable (ingest m w).
Proof.
  intros Hw. destruct m as [|[n|] [updates|]| |]; simpl;
    repeat first [done | apply reachable_add_all | apply reach_setRowCount].
Qed.

(** A row update, handled: the rows are in the window, the list is
    materialized from it, the flag is set, nothing was published. *)
Lemma handle_row_update (m : DataSourceCallbackMessage) (h : Hook) :
  reachable (dataWindow h) ->
  is_row_update m = true ->
  let h' := fst (datasourceMessageHandler m h) in
  snd (datasourceMessageHandler m h) = Normal
  /\ dataWindow h' = ingest m (dataWindow h)
  /\ data_current h' = slice_sort (data (dataWindow h'))
  /\ hasUpdated h' = true
  /\ isMounted h' = isMounted h
  /\ publishes h' = publishes h.
Proof.
  intros Hreach Hm.
  destruct m as [|[n|] [updates|]| |]; try discriminate; simpl in *.
  - apply Z.leb_le in Hm.
    pose proof (setRowCount_normal n (dataWindow h) (fits_reachable _ Hreach) Hm) as Hn.
    destruct (setRowCount n (dataWindow h)) as [w c]. simpl in Hn. subst c.
    simpl. repeat split; try done.
    unfold publishes. simpl. rewrite omap_app. simpl. by rewrite app_nil_r.
  - done.
Qed.

Lemma run_row_updates (ms : list DataSourceCallbackMessage) (h : Hook) :
  reachable (dataWindow h) ->
  Forall (fun m => is_row_update m = true) ms ->
  let h' := run (ev_message <$> ms) h in
  dataWindow h' = foldl (fun w m => ingest m w) (dataWindow h) ms
  /\ isMounted h' = isMounted h
  /\ publishes h' = publishes h
  /\ (ms <> [] ->
      hasUpdated h' = true
      /\ data_current h' = slice_sort (data (dataWindow h'))).
Proof.
  revert h. induction ms as [|m ms IH] using rev_ind; intros h Hreach Hms.
  - done.
  - apply Forall_app in Hms as [Hms Hm]. apply Forall_cons in Hm as [Hm _].
    destruct (IH h Hreach Hms) as (Hw & Hmount & Hpub & _).
    unfold run in *. rewrite fmap_app, !foldl_app. simpl.
    set (h1 := foldl (fun h e => step e h) h (ev_message <$> ms)) in *.
    assert (reachable (dataWindow h1)) as Hreach1.
    { rewrite Hw. clear -Hreach. revert Hreach. generalize (dataWindow h).
      induction ms as [|m' ms IH']; intros w Hw; [done|].
      simpl. by apply IH', reachable_ingest. }
    destruct (handle_row_update m h1 Hreach1 Hm) as (_ & Hw' & Hdata & Hup & Hmount' & Hpub').
    rewrite Hw', Hw, Hmount', Hmount, Hpub', Hpub. repeat split; try done.
    by rewrite <- Hw, <- Hw'.
Qed.

(** The tick of a mounted hook whose flag is set publishes [data.current]
    once and clears the flag. *)
Lemma tick_dirty (h : Hook) :
  isMounted h = true -> hasUpdated h = true ->
  publishes (refreshIfUpdated h) = publishes h ++ [data_current h]
  /\ hasUpdated (refreshIfUpdated h) = false.
Proof.
  intros Hm Hu. unfold refreshIfUpdated. rewrite Hm, Hu. simpl. split; [|done].
  unfold publishes. simpl. by rewrite omap_app.
Qed.

Lemma tick_clean (h : Hook) :
  hasUpdated h = false ->
  publishes (refreshIfUpdated h) = publishes h
  /\ hasUpdated (refreshIfUpdated h) = false.
Proof.
  intros Hu. unfold refreshIfUpdated. rewrite Hu. by destruct (isMounted h).
Qed.

(** Only a tick clears the flag, and only by publishing. *)
Lemma flag_cleared_by_publishing_tick (e : event) (h : Hook) :
  hasUpdated h = true -> hasUpdated (step e h) = false ->
  e = ev_tick /\ publishes (step e h) = publishes h ++ [data_current h].
Proof.
  intros Hu Hc. destruct e as [m| |f t|]; simpl in *.
  - exfalso. revert Hc.
    destruct m as [|[n|] [updates|]| |]; simpl; try congruence.
    + destruct (setRowCount n (dataWindow h)) as [w []]; simpl; congruence.
    + destruct (setRowCount n (dataWindow h)) as [w []]; simpl; congruence.
    + destruct (has_onConfigChange h); simpl; congruence.
  - split; [done|]. unfold refreshIfUpdated in *. rewrite Hu in *.
    destruct (isMounted h); simpl in *; [|congruence].
    unfold publishes. simpl. by rewrite omap_app.
  - exfalso. unfold hook_setRange in Hc.
    destruct (setRange f t _) as [w c]. simpl in Hc. congruence.
  - simpl in Hc. congruence.
Qed.

Lemma reachable_sample_window : reachable Sample.window.
Proof.
  assert (MovingWindow_new 0 4
          = Some {| data := replicate 4 None; rowCount := 0;
                    range := mkRange 0 4 |}) as Hnew by reflexivity.
  apply reach_new in Hnew.
  apply (reach_add (Sample.row 1)) in Hnew.
  apply (reach_add (Sample.row 3)) in Hnew.
  exact Hnew.
Qed.

(** *** The claims about the hook *)

(** C2, as amended.  A viewport update that carries neither rows nor a
    numeric size changes nothing: no sort, no flag, no callback.  The
    refresh without rows is that of an update with a numeric size that
    [setRowCount] accepts (a size that is not negative, on a reachable
    window): the handler completes normally, having called [onSizeChange]
    and [setRowCount], the list is materialized anew from the window and
    the flag is set. *)
Theorem viewport_update_without_rows (h : Hook) :
  datasourceMessageHandler (msg_viewport_update None None) h = (h, Normal)
  /\ (forall n : Z,
        reachable (dataWindow h) -> 0 <= n ->
        snd (datasourceMessageHandler (msg_viewport_update (Some n) None) h) = Normal
        /\ dataWindow (fst (datasourceMessageHandler (msg_viewport_update (Some n) None) h))
           = fst (setRowCount n (dataWindow h))
        /\ data_current (fst (datasourceMessageHandler (msg_viewport_update (Some n) None) h))
           = slice_sort (data (fst (setRowCount n (dataWindow h))))
        /\ hasUpdated (fst (datasourceMessageHandler (msg_viewport_update (Some n) None) h))
           = true
        /\ effects (fst (datasourceMessageHandler (msg_viewport_update (Some n) None) h))
           = effects h ++ [onSizeChange n]).
Proof.
  split; [done|]. intros n Hreach Hn.
  pose proof (setRowCount_normal n (dataWindow h) (fits_reachable _ Hreach) Hn)
    as Hnormal.
  simpl. destruct (setRowCount n (dataWindow h)) as [w c].
  simpl in Hnormal. subst c. done.
Qed.

Lemma viewport_update_without_rows_witness :
  snd (datasourceMessageHandler (msg_viewport_update (Some 2) None) Sample.hook)
  = Normal
  /\ hasUpdated
       (fst (datasourceMessageHandler (msg_viewport_update (Some 2) None) Sample.hook))
     = true
  /\ data_current
       (fst (datasourceMessageHandler (msg_viewport_update (Some 2) None) Sample.hook))
     = [Some (Sample.row 1); None].
Proof.
  assert (0 <= 2) as Hsize by lia.
  destruct (proj2 (viewport_update_without_rows Sample.hook) 2
              reachable_sample_window Hsize) as (Hnormal & _ & Hlist & Hflag & _).
  split; [exact Hnormal|]. split; [exact Hflag|]. exact Hlist.
Defined.

(** C2 as stated fails: on a hook whose list is behind its window, an
    update with neither rows nor size leaves the flag clear and the list
    as it was, though the window would materialize to two rows. *)
Lemma viewport_update_with_neither_does_nothing :
  hasUpdated (fst (datasourceMessageHandler (msg_viewport_update None None) Sample.hook))
  = false
  /\ data_current
       (fst (datasourceMessageHandler (msg_viewport_update None None) Sample.hook))
     = []
  /\ slice_sort
       (data (dataWindow
          (fst (datasourceMessageHandler (msg_viewport_update None None) Sample.hook))))
     = [Some (Sample.row 1); Some (Sample.row 3); None; None].
Proof. by vm_compute. Qed.

(** C9. On a mounted hook, any number (at least one) of row updates
    between two ticks publishes nothing by itself, and the next tick
    publishes exactly once: the list materialized from the window that has
    taken all the updates in order; after it the flag is clear.  A tick
    that finds the flag clear publishes nothing.  Whatever clears a set
    flag is a tick, and that tick publishes. *)
Theorem one_publish_per_frame :
  (forall (h : Hook) (ms : list DataSourceCallbackMessage),
     isMounted h = true ->
     reachable (dataWindow h) ->
     ms <> [] ->
     Forall (fun m => is_row_update m = true) ms ->
     let h1 := run (ev_message <$> ms) h in
     let h2 := step ev_tick h1 in
     publishes h1 = publishes h
     /\ publishes h2
        = publishes h
          ++ [slice_sort (data (foldl (fun w m => ingest m w) (dataWindow h) ms))]
     /\ hasUpdated h2 = false)
  /\ (forall h : Hook,
        hasUpdated h = false -> publishes (step ev_tick h) = publishes h)
  /\ (forall (e : event) (h : Hook),
        hasUpdated h = true -> hasUpdated (step e h) = false ->
        e = ev_tick /\ publishes (step e h) = publishes h ++ [data_current h]).
Proof.
  split; [|split].
  - intros h ms Hmount Hreach Hne Hms h1 h2.
    destruct (run_row_updates ms h Hreach Hms) as (Hw & Hmount1 & Hpub & Hdirty).
    destruct (Hdirty Hne) as [Hup Hdata]. fold h1 in Hw, Hmount1, Hpub, Hup, Hdata.
    split; [done|].
    destruct (tick_dirty h1) as [Hpub2 Hup2]; [congruence | done |].
    subst h2. simpl. rewrite Hpub2, Hup2, Hpub, Hdata, Hw. done.
  - intros h Hu. by apply tick_clean.
  - apply flag_cleared_by_publishing_tick.
Qed.

Lemma one_publish_per_frame_witness :
  publishes
    (step ev_tick
       (run (ev_message
               <$> [msg_viewport_update None (Some [Sample.row 0; Sample.row 2]);
                    msg_viewport_update (Some 3) (Some [Sample.row 9])])
            Sample.hook))
  = [[Some (Sample.row 0); Some (Sample.row 1); Some (Sample.row 2)]].
Proof.
  pose proof (proj1 one_publish_per_frame Sample.hook
                [msg_viewport_update None (Some [Sample.row 0; Sample.row 2]);
                 msg_viewport_update (Some 3) (Some [Sample.row 9])]
                eq_refl reachable_sample_window) as H.
  destruct H as (_ & Hpub & _).
  - discriminate.
  - repeat constructor.
  - exact Hpub.
Defined.

(** ** Numbers *)

Lemma le_not_gt (x y : JsNum.t) : JsNum.le x y = true -> JsNum.gt x y = false.
Proof.
  unfold JsNum.gt. destruct x, y; simpl; try done.
  by intros ->%negb_true_iff.
Qed.

Lemma ge_not_lt (x y : JsNum.t) : JsNum.ge x y = true -> JsNum.lt x y = false.
Proof.
  unfold JsNum.ge. destruct x, y; simpl; try done.
  by intros ->%negb_true_iff.
Qed.

Lemma add_NaN_l (x : JsNum.t) : JsNum.add JsNum.NaN x = JsNum.NaN.
Proof. done. Qed.

Lemma sub_NaN_l (x : JsNum.t) : JsNum.sub JsNum.NaN x = JsNum.NaN.
Proof. done. Qed.

Lemma sub_NaN_r (x : JsNum.t) : JsNum.sub x JsNum.NaN = JsNum.NaN.
Proof. by destruct x. Qed.

Lemma gt_NaN_l (x : JsNum.t) : JsNum.gt JsNum.NaN x = false.
Proof. by destruct x. Qed.

Lemma lt_NaN_r (x : JsNum.t) : JsNum.lt x JsNum.NaN = false.
Proof. by destruct x. Qed.

(** Whatever is divided by zero, the floored quotient times zero is NaN. *)
Lemma floor_div_zero_mul_zero (x : JsNum.t) :
  JsNum.mul (JsNum.floor_div x (JsNum.Fin 0)) (JsNum.Fin 0) = JsNum.NaN.
Proof.
  destruct x as [a| | |]; simpl; try done.
  unfold JsNum.inf_of_sign.
  destruct (0 <? Z.sgn a); [done|]. by destruct (Z.sgn a <? 0).
Qed.

(** A positive number is farther than zero from zero. *)
Lemma gt_zero_abs (x : JsNum.t) :
  JsNum.gt x (JsNum.Fin 0) = true -> JsNum.gt (JsNum.abs x) (JsNum.Fin 0) = true.
Proof.
  unfold JsNum.gt. destruct x as [a| | |]; simpl; try done.
  rewrite !Z.ltb_lt. lia.
Qed.

(** ** The scroll hook *)

Lemma firstRowIndex_of_NaN (p : ScrollHookProps) :
  firstRowIndex_of p JsNum.NaN = JsNum.NaN.
Proof. done. Qed.

Lemma clamp_last_NaN (p : ScrollHookProps) : clamp_last p JsNum.NaN = JsNum.NaN.
Proof. unfold clamp_last. by rewrite add_NaN_l, gt_NaN_l. Qed.

(** A forward event that crosses, written out. *)
Lemma handleScroll_forward (fuel : nat) (p : ScrollHookProps) (e : ScrollEvent)
    (s : ScrollState) :
  JsNum.gt (JsNum.sub (scrollTop e) (scrollTopRef s)) (JsNum.Fin 0) = true ->
  crossed p (JsNum.sub (scrollTop e) (scrollTopRef s)) (scrollTop e) = true ->
  handleScroll fuel p e s
  = Some (sync_table e
            (rerange p (JsNum.mul (JsNum.floor_div (scrollTop e) (bufferHeight p))
                                  (bufferHeight p)) s)).
Proof. intros Hf Hc. unfold handleScroll. by rewrite Hf, Hc. Qed.

(** An event that does not cross leaves anchor and range alone. *)
Lemma handleScroll_within (fuel : nat) (p : ScrollHookProps) (e : ScrollEvent)
    (s : ScrollState) :
  crossed p (JsNum.sub (scrollTop e) (scrollTopRef s)) (scrollTop e) = false ->
  handleScroll fuel p e s = Some (sync_table e s).
Proof. intros Hc. unfold handleScroll. by rewrite Hc, !andb_false_r. Qed.

(** The loop stops at once when the anchor is NaN. *)
Lemma snap_back_NaN (fuel : nat) (bh top : JsNum.t) :
  snap_back fuel bh JsNum.NaN top = Some JsNum.NaN.
Proof. destruct fuel; simpl; by rewrite gt_NaN_l. Qed.

(** With a positive buffer height the loop ends: the distance to the event
    is fuel enough. *)
Lemma snap_back_terminates (bh anchor top : Z) (fuel : nat) :
  0 < bh -> anchor - top <= Z.of_nat fuel ->
  exists anchor' : Z,
    snap_back fuel (JsNum.Fin bh) (JsNum.Fin anchor) (JsNum.Fin top)
    = Some (JsNum.Fin anchor')
    /\ anchor' - top <= bh
    /\ (exists k : Z, 0 <= k /\ anchor' = anchor - k * bh).
Proof.
  intros Hbh. revert anchor.
  induction fuel as [|fuel IH]; intros anchor Hfuel; simpl;
    unfold JsNum.gt; simpl.
  - rewrite (proj2 (Z.ltb_ge _ _)) by lia.
    exists anchor. split; [done|]. split; [lia|]. exists 0. lia.
  - destruct (Z.ltb_spec bh (anchor + - top)) as [Hgt|Hle].
    + destruct (IH (anchor + - bh)) as (a' & Hrun & Hnear & k & Hk & Heq); [lia|].
      exists a'. split; [done|]. split; [done|]. exists (k + 1). lia.
    + exists anchor. split; [done|]. split; [lia|]. exists 0. lia.
Qed.

(** With a buffer height of zero the loop never ends once the anchor is
    below the event: no fuel is enough. *)
Lemma snap_back_zero_diverges (fuel : nat) (anchor top : Z) :
  top < anchor ->
  snap_back fuel (JsNum.Fin 0) (JsNum.Fin anchor) (JsNum.Fin top) = None.
Proof.
  intros Hlt. induction fuel as [|fuel IH]; simpl; unfold JsNum.gt; simpl;
    rewrite (proj2 (Z.ltb_lt _ _)) by lia; [done|].
  by replace (anchor + - 0) with anchor by lia.
Qed.

(** The anchor a forward event snaps to is a number when the buffer height
    is a nonzero integer. *)
Lemma forward_anchor_not_NaN (top : JsNum.t) (b : Z) :
  b <> 0 -> top <> JsNum.NaN ->
  JsNum.mul (JsNum.floor_div top (JsNum.Fin b)) (JsNum.Fin b) <> JsNum.NaN.
Proof.
  intros Hb Htop. destruct top as [a| | |]; simpl; try done.
  - by rewrite (proj2 (Z.eqb_neq b 0) Hb).
  - destruct (Z.ltb_spec b 0); simpl; unfold JsNum.inf_of_sign;
      destruct (Z.ltb_spec 0 (-1 * Z.sgn b)), (Z.ltb_spec 0 (1 * Z.sgn b));
      try done; lia.
  - destruct (Z.ltb_spec b 0); simpl; unfold JsNum.inf_of_sign.
    + destruct (Z.ltb_spec 0 (1 * Z.sgn b)); [lia|].
      destruct (Z.ltb_spec (1 * Z.sgn b) 0); [done | lia].
    + destruct (Z.ltb_spec 0 (-1 * Z.sgn b)); [lia|].
      destruct (Z.ltb_spec (-1 * Z.sgn b) 0); [done | lia].
Qed.

(** From an anchor that is a number the local [firstRowIndex] is an
    integer that is not negative, or Infinity. *)
Lemma firstRowIndex_of_range (p : ScrollHookProps) (anchor : JsNum.t) (rh bc : Z) :
  rowHeight p = JsNum.Fin rh -> bufferCount p = JsNum.Fin bc ->
  rh <> 0 -> anchor <> JsNum.NaN ->
  (exists z : Z, firstRowIndex_of p anchor = JsNum.Fin z /\ 0 <= z)
  \/ firstRowIndex_of p anchor = JsNum.PInf.
Proof.
  intros Hrh Hbc Hne Ha. unfold firstRowIndex_of. rewrite Hrh, Hbc.
  destruct anchor as [a| | |]; simpl; try done.
  - rewrite (proj2 (Z.eqb_neq rh 0) Hne). simpl.
    left. destruct (Z.ltb_spec 0 (a / rh + - bc)); eauto with lia.
  - destruct (rh <? 0); simpl; [left; eauto with lia | by right].
  - destruct (rh <? 0); simpl; [by right | left; eauto with lia].
Qed.

(** The clamp for 20 rendered rows out of 100. *)
Lemma clamp_last_20_of_100 (p : ScrollHookProps) (first : JsNum.t) :
  dataRowCount p = JsNum.Fin 100 -> renderedRowsCount p = JsNum.Fin 20 ->
  (exists z : Z, first = JsNum.Fin z /\ 0 <= z) \/ first = JsNum.PInf ->
  exists z : Z, clamp_last p first = JsNum.Fin z /\ 0 <= z /\ z + 20 <= 100.
Proof.
  intros Hd Hr Hfirst. unfold clamp_last. rewrite Hd, Hr.
  destruct Hfirst as [(z & -> & Hz)| ->]; unfold JsNum.gt; simpl.
  - destruct (Z.ltb_spec 100 (z + 20)); simpl; eauto with lia.
  - eauto with lia.
Qed.

(** *** The claims about the scroll hook *)

(** C4, as amended.  With a rowHeight or a bufferCount of zero (the other
    an integer) the buffer height is zero.  A forward scroll event is then
    handled without an exception, but it sets the anchor, the published
    firstRowIndex and with it lastRowIndex to NaN; and once anchor and
    firstRowIndex are NaN every event is handled without an exception and
    leaves them NaN: the render range is not computed again. *)
Theorem zero_buffer_height_sticks_at_NaN (fuel : nat) (p : ScrollHookProps)
    (e : ScrollEvent) (s : ScrollState) (rh bc : Z) :
  rowHeight p = JsNum.Fin rh -> bufferCount p = JsNum.Fin bc ->
  rh = 0 \/ bc = 0 ->
  bufferHeight p = JsNum.Fin 0
  /\ (JsNum.gt (JsNum.sub (scrollTop e) (scrollTopRef s)) (JsNum.Fin 0) = true ->
      exists s' : ScrollState,
        handleScroll fuel p e s = Some s'
        /\ scrollTopRef s' = JsNum.NaN
        /\ firstRowIndex s' = JsNum.NaN
        /\ lastRowIndex p s' = JsNum.NaN)
  /\ (scrollTopRef s = JsNum.NaN -> firstRowIndex s = JsNum.NaN ->
      exists s' : ScrollState,
        handleScroll fuel p e s = Some s'
        /\ scrollTopRef s' = JsNum.NaN
        /\ firstRowIndex s' = JsNum.NaN
        /\ lastRowIndex p s' = JsNum.NaN).
Proof.
  intros Hrh Hbc Hzero.
  assert (bufferHeight p = JsNum.Fin 0) as Hbh.
  { unfold bufferHeight. rewrite Hrh, Hbc. simpl. f_equal. lia. }
  split; [done|]. split.
  - intros Hfwd.
    rewrite handleScroll_forward; [|done|].
    + rewrite Hbh, floor_div_zero_mul_zero.
      eexists. split; [done|]. unfold lastRowIndex. simpl.
      by rewrite firstRowIndex_of_NaN, clamp_last_NaN.
    + unfold crossed. rewrite Hbh. by rewrite gt_zero_abs.
  - intros Hanchor Hfirst. unfold handleScroll.
    rewrite Hanchor, sub_NaN_r. simpl.
    destruct (crossed p JsNum.NaN (scrollTop e)).
    + rewrite snap_back_NaN. eexists. split; [done|]. unfold lastRowIndex. simpl.
      by rewrite firstRowIndex_of_NaN, clamp_last_NaN.
    + eexists. split; [done|]. unfold lastRowIndex. simpl.
      by rewrite Hanchor, Hfirst.
Qed.

Lemma zero_buffer_height_sticks_at_NaN_witness :
  (exists s' : ScrollState,
     handleScroll 0 Sample.flat_props (Sample.scroll_to 10) Sample.at_top = Some s'
     /\ scrollTopRef s' = JsNum.NaN
     /\ firstRowIndex s' = JsNum.NaN
     /\ lastRowIndex Sample.flat_props s' = JsNum.NaN)
  /\ (exists s' : ScrollState,
        handleScroll 0 Sample.flat_props (Sample.scroll_to 30) Sample.stuck = Some s'
        /\ scrollTopRef s' = JsNum.NaN
        /\ firstRowIndex s' = JsNum.NaN
        /\ lastRowIndex Sample.flat_props s' = JsNum.NaN).
Proof.
  split.
  - exact (proj1 (proj2 (zero_buffer_height_sticks_at_NaN 0 Sample.flat_props
                           (Sample.scroll_to 10) Sample.at_top 0 5 eq_refl eq_refl
                           (or_introl eq_refl))) eq_refl).
  - exact (proj2 (proj2 (zero_buffer_height_sticks_at_NaN 0 Sample.flat_props
                           (Sample.scroll_to 30) Sample.stuck 0 5 eq_refl eq_refl
                           (or_introl eq_refl))) eq_refl eq_refl).
Defined.

(** C4 as stated fails: without buffer rows the first scroll down, to 10
    pixels, publishes NaN for firstRowIndex and lastRowIndex, and the later
    scroll to 30 pixels computes nothing anew. *)
Lemma zero_bufferCount_publishes_NaN :
  bufferHeight Sample.unbuffered_props = JsNum.Fin 0
  /\ handleScroll 0 Sample.unbuffered_props (Sample.scroll_to 10) Sample.at_top
     = Some Sample.stuck
  /\ JsNum.isFinite (firstRowIndex Sample.stuck) = false
  /\ JsNum.isFinite (lastRowIndex Sample.unbuffered_props Sample.stuck) = false
  /\ handleScroll 0 Sample.unbuffered_props (Sample.scroll_to 30) Sample.stuck
     = Some Sample.stuck.
Proof. by vm_compute. Qed.

(** C6. An event whose distance from the anchor is at most the buffer
    height and whose scrollTop is at least the buffer height leaves
    firstRowIndex, lastRowIndex and the anchor as they are. *)
Theorem small_scroll_keeps_render_range (fuel : nat) (p : ScrollHookProps)
    (e : ScrollEvent) (s : ScrollState) :
  JsNum.le (JsNum.abs (JsNum.sub (scrollTop e) (scrollTopRef s))) (bufferHeight p)
  = true ->
  JsNum.ge (scrollTop e) (bufferHeight p) = true ->
  exists s' : ScrollState,
    handleScroll fuel p e s = Some s'
    /\ firstRowIndex s' = firstRowIndex s
    /\ lastRowIndex p s' = lastRowIndex p s
    /\ scrollTopRef s' = scrollTopRef s.
Proof.
  intros Hnear Htop. exists (sync_table e s).
  split; [|done]. apply handleScroll_within.
  unfold crossed. by rewrite (le_not_gt _ _ Hnear), (ge_not_lt _ _ Htop).
Qed.

Lemma small_scroll_keeps_render_range_witness :
  exists s' : ScrollState,
    handleScroll 0 Sample.props (Sample.scroll_to 300) Sample.scrolled = Some s'
    /\ firstRowIndex s' = JsNum.Fin 5
    /\ lastRowIndex Sample.props s' = JsNum.Fin 25
    /\ scrollTopRef s' = JsNum.Fin 200.
Proof.
  exact (small_scroll_keeps_render_range 0 Sample.props (Sample.scroll_to 300)
           Sample.scrolled eq_refl eq_refl).
Defined.

(** C5, as amended.  A forward event that crosses ([scrollTop - anchor > 0]
    and [|scrollTop - anchor| > bufferHeight] or [scrollTop < bufferHeight])
    sets the anchor to [floor(scrollTop / bufferHeight) * bufferHeight] and
    publishes [max(0, floor(anchor / rowHeight) - bufferCount)] from the new
    anchor, or [dataRowCount - renderedRowsCount] when that value plus
    renderedRowsCount exceeds dataRowCount.  With rowHeight 20, bufferCount
    5, anchor 0 and scrollTop 250 the new anchor is 200 and the local
    firstRowIndex is 5, which is published when the clamp does not apply.
    With dataRowCount 100, renderedRowsCount 20 and a rowHeight and a
    bufferCount that are integers other than zero, the published
    firstRowIndex is an integer [z] with [0 <= z] and [z + 20 <= 100]. *)
Theorem forward_rerange :
  (forall (fuel : nat) (p : ScrollHookProps) (e : ScrollEvent) (s : ScrollState),
     JsNum.gt (JsNum.sub (scrollTop e) (scrollTopRef s)) (JsNum.Fin 0) = true ->
     JsNum.gt (JsNum.abs (JsNum.sub (scrollTop e) (scrollTopRef s))) (bufferHeight p)
     = true
     \/ JsNum.lt (scrollTop e) (bufferHeight p) = true ->
     exists s' : ScrollState,
       handleScroll fuel p e s = Some s'
       /\ scrollTopRef s'
          = JsNum.mul (JsNum.floor_div (scrollTop e) (bufferHeight p)) (bufferHeight p)
       /\ firstRowIndex s'
          = (let first :=
               JsNum.max (JsNum.Fin 0)
                 (JsNum.sub (JsNum.floor_div (scrollTopRef s') (rowHeight p))
                            (bufferCount p)) in
             if JsNum.gt (JsNum.add first (renderedRowsCount p)) (dataRowCount p)
             then JsNum.sub (dataRowCount p) (renderedRowsCount p)
             else first))
  /\ (forall (fuel : nat) (visible rows left first0 : JsNum.t)
             (tbl : option (JsNum.t * JsNum.t)),
        let p := {| bufferCount := JsNum.Fin 5; dataRowCount := rows;
                    rowHeight := JsNum.Fin 20; visibleRowCount := visible |} in
        exists s' : ScrollState,
          handleScroll fuel p
            {| scrollLeft := left; scrollTop := JsNum.Fin 250 |}
            {| scrollTopRef := JsNum.Fin 0; firstRowIndex := first0; table := tbl |}
          = Some s'
          /\ scrollTopRef s' = JsNum.Fin 200
          /\ firstRowIndex_of p (scrollTopRef s') = JsNum.Fin 5
          /\ (JsNum.gt (JsNum.add (JsNum.Fin 5) (renderedRowsCount p)) rows = false ->
              firstRowIndex s' = JsNum.Fin 5))
  /\ (forall (fuel : nat) (p : ScrollHookProps) (e : ScrollEvent)
             (s s' : ScrollState) (rh bc : Z),
        dataRowCount p = JsNum.Fin 100 ->
        renderedRowsCount p = JsNum.Fin 20 ->
        rowHeight p = JsNum.Fin rh -> bufferCount p = JsNum.Fin bc ->
        rh <> 0 -> bc <> 0 ->
        JsNum.gt (JsNum.sub (scrollTop e) (scrollTopRef s)) (JsNum.Fin 0) = true ->
        JsNum.gt (JsNum.abs (JsNum.sub (scrollTop e) (scrollTopRef s))) (bufferHeight p)
        = true
        \/ JsNum.lt (scrollTop e) (bufferHeight p) = true ->
        handleScroll fuel p e s = Some s' ->
        exists z : Z, firstRowIndex s' = JsNum.Fin z /\ 0 <= z /\ z + 20 <= 100).
Proof.
  split; [|split].
  - intros fuel p e s Hfwd Hcross.
    rewrite handleScroll_forward; [|done|].
    + eexists. split; [done|]. split; done.
    + unfold crossed. apply orb_true_iff. done.
  - intros fuel visible rows left first0 tbl p.
    rewrite handleScroll_forward; [|done..].
    eexists. split; [done|]. split; [done|]. split; [done|].
    intros Hfits. cbn [firstRowIndex sync_table rerange]. unfold clamp_last.
    change (firstRowIndex_of p _) with (JsNum.Fin 5).
    change (dataRowCount p) with rows.
    by rewrite Hfits.
  - intros fuel p e s s' rh bc Hrows Hrendered Hrh Hbc Hrh0 Hbc0 Hfwd Hcross.
    apply orb_true_iff in Hcross.
    fold (crossed p (JsNum.sub (scrollTop e) (scrollTopRef s)) (scrollTop e))
      in Hcross.
    rewrite handleScroll_forward by done. intros [= <-]. simpl.
    apply clamp_last_20_of_100; [done..|].
    apply (firstRowIndex_of_range p _ rh bc); [done..|].
    unfold bufferHeight. rewrite Hrh, Hbc. simpl.
    apply forward_anchor_not_NaN; [lia|].
    intros Htop. by rewrite Htop in Hfwd.
Qed.

Lemma forward_rerange_witness :
  (exists s' : ScrollState,
     handleScroll 0 Sample.props (Sample.scroll_to 250) Sample.at_top = Some s'
     /\ scrollTopRef s' = JsNum.Fin 200
     /\ firstRowIndex s' = JsNum.Fin 5)
  /\ (exists z : Z,
        firstRowIndex
          {| scrollTopRef := JsNum.Fin 2000; firstRowIndex := JsNum.Fin 80;
             table := None |} = JsNum.Fin z
        /\ 0 <= z /\ z + 20 <= 100).
Proof.
  split.
  - destruct (proj1 forward_rerange 0%nat Sample.props (Sample.scroll_to 250)
                Sample.at_top eq_refl (or_introl eq_refl))
      as (s' & Hrun & Hanchor & Hfirst).
    exists s'. split; [exact Hrun|]. split; [exact Hanchor|].
    rewrite Hfirst, Hanchor. reflexivity.
  - exact (proj2 (proj2 forward_rerange) 0%nat Sample.props (Sample.scroll_to 2000)
             Sample.at_top _ 20 5 eq_refl eq_refl eq_refl eq_refl
             ltac:(discriminate) ltac:(discriminate) eq_refl (or_introl eq_refl)
             eq_refl).
Defined.

(** C5 as stated fails: with rows of height 0 (dataRowCount 100,
    renderedRowsCount 20) the forward scroll to 10 pixels crosses and
    publishes NaN, for which neither bound holds. *)
Lemma zero_rowHeight_escapes_clamp :
  dataRowCount Sample.flat_props = JsNum.Fin 100
  /\ renderedRowsCount Sample.flat_props = JsNum.Fin 20
  /\ JsNum.gt (JsNum.sub (scrollTop (Sample.scroll_to 10)) (scrollTopRef Sample.at_top))
              (JsNum.Fin 0) = true
  /\ crossed Sample.flat_props
       (JsNum.sub (scrollTop (Sample.scroll_to 10)) (scrollTopRef Sample.at_top))
       (scrollTop (Sample.scroll_to 10)) = true
  /\ handleScroll 0 Sample.flat_props (Sample.scroll_to 10) Sample.at_top
     = Some Sample.stuck
  /\ JsNum.ge (firstRowIndex Sample.stuck) (JsNum.Fin 0) = false
  /\ JsNum.le (JsNum.add (firstRowIndex Sample.stuck) (JsNum.Fin 20)) (JsNum.Fin 100)
     = false.
Proof. by vm_compute. Qed.

(** * Further properties of the code *)

(** ** MovingWindow: constructor, add, setRowCount, setRange *)

Lemma set_set_same {A : Type} (a : JsArray.t A) (k : Z) (v : A) :
  JsArray.set (JsArray.set a k v) k v = JsArray.set a k v.
Proof.
  unfold JsArray.set. destruct (Z.ltb_spec k 0) as [Hk|Hk]; [done|].
  destruct (Nat.ltb_spec (Z.to_nat k) (length a)) as [Hlt|Hge].
  - rewrite length_insert.
    rewrite (proj2 (Nat.ltb_lt _ _) Hlt).
    by rewrite list_insert_insert_eq.
  - rewrite !length_app, length_replicate. cbn [length].
    rewrite (proj2 (Nat.ltb_lt (Z.to_nat k) _)) by lia.
    rewrite app_assoc.
    rewrite insert_app_r_alt by (rewrite length_app, length_replicate; lia).
    rewrite length_app, length_replicate.
    by replace (Z.to_nat k - (length a + (Z.to_nat k - length a)))%nat with 0%nat by lia.
Qed.

Lemma getAtIndex_setRange_valid (f t : Z) (w : MovingWindow) (i : Z) :
  JsArray.valid_length (t - f) = true ->
  getAtIndex i (fst (setRange f t w))
  = if decide ((from (range w) <= i < to (range w)) /\ (f <= i < t))
    then getAtIndex i w else None.
Proof.
  intros Hvalid.
  destruct (decide ((f, t) = (from (range w), to (range w)))) as [[= -> ->]|Hne].
  - rewrite setRange_same. cbn [fst]. case_decide as Hin; [done|].
    apply getAtIndex_outside. tauto.
  - by apply getAtIndex_setRange.
Qed.

Lemma range_setRange_valid (f t : Z) (w : MovingWindow) :
  JsArray.valid_length (t - f) = true ->
  range (fst (setRange f t w)) = mkRange f t
  /\ snd (setRange f t w) = Normal.
Proof.
  intros Hvalid.
  destruct (decide ((f, t) = (from (range w), to (range w)))) as [[= -> ->]|Hne].
  - rewrite setRange_same. cbn [fst snd]. split; [|done]. by destruct (range w).
  - by rewrite setRange_changed.
Qed.

(** X1. [add] is an upsert read through [getAtIndex]: afterwards the index
    of the row, when it is in the range, reads as the row, whatever the
    slot held and however short the buffer was; every other index reads as
    before. *)
Theorem add_is_upsert (row : DataSourceRow) (w : MovingWindow) (k : Z) :
  getAtIndex k (fst (add row w))
  = if decide (k = row_IDX row /\ from (range w) <= k < to (range w))
    then Some row
    else getAtIndex k w.
Proof. apply getAtIndex_add. Qed.

(** X2. Adding a row a second time changes nothing: the window after two
    [add] of the same row is the window after one. *)
Theorem add_twice_is_add_once (row : DataSourceRow) (w : MovingWindow) :
  add row (fst (add row w)) = add row w.
Proof.
  destruct (decide (from (range w) <= row_IDX row < to (range w))) as [Hin|Hout].
  - rewrite (add_within row w) by done. cbn [fst].
    rewrite add_within by done. cbn [data range rowCount].
    by rewrite set_set_same.
  - rewrite (add_outside row w) by done. cbn [fst]. by apply add_outside.
Qed.

(** X3. A batch of rows added in order, as [setData] does: at an index of
    the range the window holds the last row of the batch with that index,
    and what it held before where the batch has no such row; outside the
    range nothing is held. *)
Theorem add_all_last_write_wins (updates : list DataSourceRow) (w : MovingWindow)
    (k : Z) :
  getAtIndex k (add_all updates w)
  = match last (filter (fun row => row_IDX row = k) updates) with
    | Some row => if isWithin (range w) k then Some row else None
    | None => getAtIndex k w
    end.
Proof. apply getAtIndex_add_all. Qed.

(** X4. The constructor builds a window exactly for the ranges whose size
    is an array length, and throws for the others (an inverted range among
    them).  The window it builds has the range asked for, a rowCount of 0,
    a buffer of the size of the range, and no row at any index. *)
Theorem constructor_builds_empty_window (f t : Z) :
  (JsArray.valid_length (t - f) = true ->
   exists w : MovingWindow,
     MovingWindow_new f t = Some w
     /\ range w = mkRange f t
     /\ rowCount w = 0
     /\ JsArray.len (data w) = t - f
     /\ forall k : Z, getAtIndex k w = None)
  /\ (JsArray.valid_length (t - f) = false -> MovingWindow_new f t = None).
Proof.
  split; intros Hv; unfold MovingWindow_new, JsArray.new_array; rewrite Hv; [|done].
  eexists. split; [done|]. cbn [range rowCount data].
  apply valid_length_spec in Hv.
  split; [done|]. split; [done|]. split; [by apply len_holes; lia|].
  intros k. unfold getAtIndex. cbn [range data].
  destruct (isWithin _ _); [apply get_holes | done].
Qed.

Lemma constructor_builds_empty_window_witness :
  exists w : MovingWindow,
    MovingWindow_new 3 7 = Some w
    /\ range w = mkRange 3 7
    /\ rowCount w = 0
    /\ JsArray.len (data w) = 7 - 3
    /\ forall k : Z, getAtIndex k w = None.
Proof. exact (proj1 (constructor_builds_empty_window 3 7) eq_refl). Defined.

Lemma getAtIndex_take (n : Z) (w : MovingWindow) (k : Z) :
  0 <= n ->
  getAtIndex k {| data := take (Z.to_nat n) (data w); rowCount := n;
                  range := range w |}
  = if decide (k - from (range w) < n) then getAtIndex k w else None.
Proof.
  intros Hn. unfold getAtIndex. cbn [range data].
  destruct (isWithin (range w) k) eqn:Hin; [|by case_decide].
  apply isWithin_spec in Hin. unfold JsArray.get.
  rewrite (proj2 (Z.ltb_ge _ 0)) by lia.
  case_decide as Hk.
  - by rewrite lookup_take_lt by lia.
  - by rewrite lookup_take_ge by lia.
Qed.

(** X5. [setRowCount(n)] with [n >= 0] on a reachable window completes
    normally, records [n] as the rowCount, keeps the range, and cuts the
    window at slot [n]: an index whose slot is below [n] reads as before,
    every other index reads as absent. *)
Theorem setRowCount_cuts_at_slot (n : Z) (w : MovingWindow) :
  reachable w -> 0 <= n ->
  snd (setRowCount n w) = Normal
  /\ rowCount (fst (setRowCount n w)) = n
  /\ range (fst (setRowCount n w)) = range w
  /\ forall k : Z,
       getAtIndex k (fst (setRowCount n w))
       = if decide (k - from (range w) < n) then getAtIndex k w else None.
Proof.
  intros Hreach Hn.
  pose proof (setRowCount_normal n w (fits_reachable w Hreach) Hn) as Hnormal.
  split; [done|].
  destruct (setRowCount_cases n w) as [Hs| [[Hge Hs]| [Hlt Hs]]];
    rewrite Hs in *; cbn [fst snd] in *; [done| |].
  - split; [done|]. split; [done|]. intros k. case_decide as Hk; [done|].
    unfold getAtIndex. cbn [range data].
    destruct (isWithin (range w) k); [|done]. apply get_beyond. lia.
  - split; [done|]. split; [done|]. intros k. by apply getAtIndex_take.
Qed.

Lemma setRowCount_cuts_at_slot_witness :
  getAtIndex 1 (fst (setRowCount 2 Sample.window)) = Some (Sample.row 1)
  /\ getAtIndex 3 (fst (setRowCount 2 Sample.window)) = None.
Proof.
  destruct (setRowCount_cuts_at_slot 2 Sample.window reachable_sample_window)
    as (_ & _ & _ & Hread); [lia|].
  split.
  - exact (Hread 1).
  - exact (Hread 3).
Defined.

Lemma setRowCount_below_zero (n : Z) (w : MovingWindow) :
  n < 0 -> setRowCount n w = (w, Throw_RangeError).
Proof.
  intros Hn. unfold setRowCount, JsArray.len.
  rewrite (proj2 (Z.ltb_lt n _)) by lia.
  unfold JsArray.set_length, JsArray.valid_length.
  by rewrite (proj2 (Z.leb_gt 0 n)) by lia.
Qed.

(** X6. [setRowCount] of a negative number throws a RangeError on every
    window (the buffer's length cannot be set to it) and leaves the window
    as it was, the rowCount included. *)
Theorem setRowCount_negative_throws (n : Z) (w : MovingWindow) :
  n < 0 -> setRowCount n w = (w, Throw_RangeError).
Proof. apply setRowCount_below_zero. Qed.

Lemma setRowCount_negative_throws_witness :
  (-1 < 0) /\ setRowCount (-1) Sample.window = (Sample.window, Throw_RangeError).
Proof.
  assert (-1 < 0) as Hneg by lia.
  split; [exact Hneg|].
  exact (setRowCount_negative_throws (-1) Sample.window Hneg).
Defined.

(** X7. [setRange] to an inverted range ([to < from]) other than the
    current one throws a RangeError from [new Array] and leaves buffer,
    range and rowCount as they were. *)
Theorem setRange_inverted_throws (f t : Z) (w : MovingWindow) :
  t < f -> (f, t) <> (from (range w), to (range w)) ->
  setRange f t w = (w, Throw_RangeError).
Proof.
  intros Hinv Hne. apply setRange_invalid; [done|].
  unfold JsArray.valid_length. by rewrite (proj2 (Z.leb_gt 0 (t - f))) by lia.
Qed.

Lemma setRange_inverted_throws_witness :
  setRange 5 3 Sample.window = (Sample.window, Throw_RangeError).
Proof.
  apply (setRange_inverted_throws 5 3 Sample.window); [lia | discriminate].
Defined.

(** X8. Two range changes in a row keep exactly the rows whose index lies
    in all three ranges: the original one and the two asked for.  So a
    window moved away and back has lost the rows outside the range it
    visited. *)
Theorem setRange_twice_keeps_common_rows (f2 t2 f3 t3 : Z) (w : MovingWindow)
    (i : Z) :
  JsArray.valid_length (t2 - f2) = true ->
  JsArray.valid_length (t3 - f3) = true ->
  getAtIndex i (fst (setRange f3 t3 (fst (setRange f2 t2 w))))
  = if decide ((from (range w) <= i < to (range w))
               /\ (f2 <= i < t2) /\ (f3 <= i < t3))
    then getAtIndex i w else None.
Proof.
  intros Hv2 Hv3.
  rewrite getAtIndex_setRange_valid by done.
  destruct (range_setRange_valid f2 t2 w Hv2) as [-> _]. cbn [from to].
  rewrite getAtIndex_setRange_valid by done.
  repeat case_decide; try done; tauto.
Qed.

Lemma setRange_twice_keeps_common_rows_witness :
  getAtIndex 3 (fst (setRange 0 4 (fst (setRange 2 6 Sample.window))))
  = Some (Sample.row 3)
  /\ getAtIndex 1 (fst (setRange 0 4 (fst (setRange 2 6 Sample.window)))) = None.
Proof.
  split.
  - exact (setRange_twice_keeps_common_rows 2 6 0 4 Sample.window 3 eq_refl eq_refl).
  - exact (setRange_twice_keeps_common_rows 2 6 0 4 Sample.window 1 eq_refl eq_refl).
Defined.

(** X9. [add] of a row of the range makes the buffer as long as the slot of
    the row needs and never shorter: the length afterwards is the larger of
    the length before and [index - range.from + 1].  So a buffer that
    [setRowCount] has cut grows again; a row outside the range leaves the
    length alone. *)
Theorem add_grows_buffer_to_slot (row : DataSourceRow) (w : MovingWindow) :
  JsArray.len (data (fst (add row w)))
  = if decide (from (range w) <= row_IDX row < to (range w))
    then Z.max (JsArray.len (data w)) (row_IDX row - from (range w) + 1)
    else JsArray.len (data w).
Proof.
  case_decide as Hin.
  - rewrite add_within by done. cbn [fst data]. apply len_set. lia.
  - by rewrite add_outside.
Qed.

Lemma indexed_slots_ascending (a : JsArray.t DataSourceRow) (base : Z) :
  (forall (i : nat) (row : DataSourceRow),
     a !! i = Some (Some row) -> row_IDX row = base + Z.of_nat i) ->
  StronglySorted Z.lt (row_IDX <$> JsArray.populated a)
  /\ Forall (fun z => base <= z) (row_IDX <$> JsArray.populated a).
Proof.
  unfold JsArray.populated. revert base.
  induction a as [|x a IH]; intros base Hslots.
  - split; constructor.
  - destruct (IH (base + 1)) as [Hsorted Hlow].
    { intros i row Hrow. rewrite (Hslots (S i) row Hrow). lia. }
    assert (Forall (fun z => base <= z) (row_IDX <$> omap id a)) as Hlow'.
    { eapply Forall_impl; [exact Hlow|]. simpl. lia. }
    destruct x as [r|]; cbn [omap list_omap id fmap list_fmap]; [|done].
    pose proof (Hslots 0%nat r eq_refl) as Hr.
    split.
    + constructor; [done|].
      eapply Forall_impl; [exact Hlow|]. simpl. lia.
    + constructor; [lia | done].
Qed.

(** X10. In a reachable window the populated rows, read in slot order,
    have strictly ascending index fields that lie in the range: no index
    is held twice, the buffer needs no sort by index. *)
Theorem populated_rows_ascending (w : MovingWindow) :
  reachable w ->
  StronglySorted Z.lt (row_IDX <$> JsArray.populated (data w))
  /\ Forall (fun z => from (range w) <= z < to (range w))
            (row_IDX <$> JsArray.populated (data w)).
Proof.
  intros Hreach.
  pose proof (slots_indexed_reachable w Hreach) as Hslots.
  split; [by eapply indexed_slots_ascending|].
  apply Forall_fmap, Forall_forall. intros row Hrow. simpl.
  unfold JsArray.populated in Hrow.
  apply list_elem_of_omap in Hrow as (x & Hx & Hid). simpl in Hid. subst x.
  apply list_elem_of_lookup in Hx as [i Hi].
  pose proof (Hslots i row Hi) as Hidx.
  destruct (fits_reachable w Hreach) as [_ Hlen].
  apply lookup_lt_Some in Hi. unfold range_size, JsArray.len in Hlen. lia.
Qed.

Lemma populated_rows_ascending_witness :
  StronglySorted Z.lt (row_IDX <$> JsArray.populated (data Sample.window))
  /\ Forall (fun z => from (range Sample.window) <= z < to (range Sample.window))
            (row_IDX <$> JsArray.populated (data Sample.window)).
Proof. exact (populated_rows_ascending Sample.window reachable_sample_window). Defined.

(** ** The hook: sort, messages, ticks, unmount, setRange *)

Lemma sort_insert_Permutation (x : DataSourceRow) (l : list DataSourceRow) :
  sort_insert x l ≡ₚ x :: l.
Proof.
  induction l as [|y l IH]; [done|]. simpl.
  destruct (byKey x y <=? 0); [done|].
  rewrite IH. apply Permutation_swap.
Qed.

Lemma sort_byKey_Permutation (l : list DataSourceRow) : sort_byKey l ≡ₚ l.
Proof.
  induction l as [|x l IH]; [done|]. unfold sort_byKey in *. simpl.
  by rewrite sort_insert_Permutation, IH.
Qed.

Lemma sort_insert_sorted (x : DataSourceRow) (l : list DataSourceRow) :
  StronglySorted render_ordered l -> StronglySorted render_ordered (sort_insert x l).
Proof.
  induction 1 as [|y l Hsorted IH Hall]; simpl.
  - repeat constructor.
  - unfold byKey. destruct (Z.leb_spec (row_RENDER_IDX x - row_RENDER_IDX y) 0) as [Hle|Hgt].
    + constructor; [by constructor|].
      constructor; [unfold render_ordered; lia|].
      eapply Forall_impl; [exact Hall|]. unfold render_ordered. simpl. lia.
    + constructor; [done|].
      rewrite sort_insert_Permutation. constructor; [|done].
      unfold render_ordered. lia.
Qed.

Lemma sort_byKey_sorted (l : list DataSourceRow) :
  StronglySorted render_ordered (sort_byKey l).
Proof.
  induction l as [|x l IH]; [constructor|].
  unfold sort_byKey in *. simpl. by apply sort_insert_sorted.
Qed.

(** The rows of one render slot are not reordered by an insertion. *)
Lemma filter_sort_insert (k : Z) (x : DataSourceRow) (l : list DataSourceRow) :
  filter (fun row => row_RENDER_IDX row = k) (sort_insert x l)
  = filter (fun row => row_RENDER_IDX row = k) (x :: l).
Proof.
  induction l as [|y l IH]; [done|]. simpl. unfold byKey.
  destruct (Z.leb_spec (row_RENDER_IDX x - row_RENDER_IDX y) 0) as [Hle|Hgt]; [done|].
  rewrite (filter_cons _ y), IH, !filter_cons.
  destruct (decide (row_RENDER_IDX y = k)), (decide (row_RENDER_IDX x = k));
    try done; lia.
Qed.

Lemma filter_sort_byKey (k : Z) (l : list DataSourceRow) :
  filter (fun row => row_RENDER_IDX row = k) (sort_byKey l)
  = filter (fun row => row_RENDER_IDX row = k) l.
Proof.
  induction l as [|x l IH]; [done|].
  unfold sort_byKey in *. simpl.
  by rewrite filter_sort_insert, !filter_cons, IH.
Qed.

Lemma length_populated {A : Type} (a : JsArray.t A) :
  (length (JsArray.populated a) <= length a)%nat.
Proof.
  unfold JsArray.populated.
  induction a as [|x a IH]; [done|].
  change (omap id (x :: a))
    with (match x with Some y => y :: omap id a | None => omap id a end).
  destruct x; cbn [length]; lia.
Qed.

Lemma populated_rows_holes {A : Type} (l : list A) (n : nat) :
  JsArray.populated ((Some <$> l) ++ replicate n None) = l.
Proof.
  unfold JsArray.populated. rewrite omap_app.
  assert (omap id (replicate n (@None A)) = []) as ->.
  { induction n as [|n IH]; [done|]. simpl. exact IH. }
  rewrite app_nil_r. induction l as [|x l IH]; [done|].
  change (omap id (Some <$> x :: l)) with (x :: omap id (Some <$> l)).
  by rewrite IH.
Qed.

(** X11. The list the hook materializes, [data.slice().sort(byKey)], has
    the length of the buffer; its rows come first, the holes after them;
    the rows are those of the buffer, each as often as there, in ascending
    order of their render slot, rows of the same render slot in the order
    the buffer has them. *)
Theorem materialized_list_is_sorted_buffer (a : JsArray.t DataSourceRow) :
  length (slice_sort a) = length a
  /\ slice_sort a
     = (Some <$> JsArray.populated (slice_sort a))
       ++ replicate (length a - length (JsArray.populated a))%nat None
  /\ JsArray.populated (slice_sort a) ≡ₚ JsArray.populated a
  /\ StronglySorted render_ordered (JsArray.populated (slice_sort a))
  /\ forall k : Z,
       filter (fun row => row_RENDER_IDX row = k) (JsArray.populated (slice_sort a))
       = filter (fun row => row_RENDER_IDX row = k) (JsArray.populated a).
Proof.
  assert (JsArray.populated (slice_sort a) = sort_byKey (JsArray.populated a)) as Hpop.
  { unfold slice_sort. apply populated_rows_holes. }
  rewrite Hpop. split; [|split; [|split; [|split]]].
  - unfold slice_sort. rewrite length_app, length_fmap, length_replicate.
    rewrite (Permutation_length (sort_byKey_Permutation _)).
    pose proof (length_populated a). lia.
  - done.
  - apply sort_byKey_Permutation.
  - apply sort_byKey_sorted.
  - intros k. apply filter_sort_byKey.
Qed.

Lemma hook_setRange_fields (f t : Z) (h : Hook) :
  data_current (fst (hook_setRange f t h)) = data_current h
  /\ hasUpdated (fst (hook_setRange f t h)) = hasUpdated h
  /\ isMounted (fst (hook_setRange f t h)) = isMounted h
  /\ rangeRef (fst (hook_setRange f t h)) = mkRange f t
  /\ effects (fst (hook_setRange f t h))
     = (if has_dataSource h
        then effects h ++ [dataSource_setRange f t]
        else effects h)
  /\ dataWindow (fst (hook_setRange f t h)) = fst (setRange f t (dataWindow h))
  /\ snd (hook_setRange f t h) = snd (setRange f t (dataWindow h)).
Proof.
  unfold hook_setRange. cbn [dataWindow].
  by destruct (setRange f t (dataWindow h)) as [w c].
Qed.

Lemma handler_fields (m : DataSourceCallbackMessage) (h : Hook) :
  isMounted (fst (datasourceMessageHandler m h)) = isMounted h
  /\ publishes (fst (datasourceMessageHandler m h)) = publishes h
  /\ rangeRef (fst (datasourceMessageHandler m h)) = rangeRef h.
Proof.
  assert (forall e, match e with forceUpdate _ => False | _ => True end ->
                    publishes (log e h) = publishes h) as Hlog.
  { intros e He. rewrite publishes_app. destruct e; [..|done|]; by rewrite app_nil_r. }
  destruct m as [|[n|] [updates|]| |]; simpl;
    repeat match goal with
           | |- context [setRowCount ?n ?w] => destruct (setRowCount n w) as [? []]
           | |- context [has_onConfigChange ?h] => destruct (has_onConfigChange h)
           end; simpl; repeat split; try done; by apply Hlog.
Qed.

(** X12. The window of the hook is changed by nothing but a viewport
    update that carries a size or rows, and a call of [setRange]:
    subscribed and config messages, other messages, ticks and the unmount
    leave buffer, range and rowCount as they are. *)
Theorem window_changed_only_by_update_or_setRange (e : event) (h : Hook) :
  dataWindow (step e h) <> dataWindow h ->
  (exists (size : option Z) (rows : option (list DataSourceRow)),
     e = ev_message (msg_viewport_update size rows)
     /\ (is_Some size \/ is_Some rows))
  \/ (exists f t : Z, e = ev_setRange f t).
Proof.
  intros Hch. destruct e as [m| |f t|].
  - left. destruct m as [|size rows| |]; simpl in Hch; try done;
      [|by destruct (has_onConfigChange h)].
    exists size, rows. split; [done|].
    destruct size as [n|]; [left; eauto|].
    destruct rows as [updates|]; [right; eauto|]. done.
  - exfalso. apply Hch. simpl. unfold refreshIfUpdated.
    by destruct (isMounted h), (hasUpdated h).
  - right. eauto.
  - done.
Qed.

Lemma window_changed_only_by_update_or_setRange_witness :
  (exists (size : option Z) (rows : option (list DataSourceRow)),
     ev_message (msg_viewport_update None (Some [Sample.row 0]))
     = ev_message (msg_viewport_update size rows)
     /\ (is_Some size \/ is_Some rows))
  \/ (exists f t : Z,
        ev_message (msg_viewport_update None (Some [Sample.row 0])) = ev_setRange f t).
Proof.
  apply (window_changed_only_by_update_or_setRange
           (ev_message (msg_viewport_update None (Some [Sample.row 0])))
           Sample.hook).
  discriminate.
Defined.

Lemma step_publishes (e : event) (h : Hook) :
  publishes (step e h) = publishes h
  \/ (e = ev_tick /\ isMounted h = true
      /\ publishes (step e h) = publishes h ++ [data_current h]).
Proof.
  destruct e as [m| |f t|]; simpl.
  - left. apply handler_fields.
  - unfold refreshIfUpdated. destruct (isMounted h); [|by left].
    destruct (hasUpdated h); [|by left].
    right. split; [done|]. split; [done|].
    unfold publishes. simpl. by rewrite omap_app.
  - left. destruct (hook_setRange_fields f t h) as (_ & _ & _ & _ & Heff & _).
    unfold publishes. rewrite Heff. destruct (has_dataSource h); [|done].
    rewrite omap_app. simpl. by rewrite app_nil_r.
  - by left.
Qed.

Lemma step_isMounted (e : event) (h : Hook) :
  isMounted h = false -> isMounted (step e h) = false.
Proof.
  intros Hm. destruct e as [m| |f t|]; simpl.
  - destruct (handler_fields m h) as (-> & _). done.
  - unfold refreshIfUpdated. by rewrite Hm.
  - destruct (hook_setRange_fields f t h) as (_ & _ & -> & _). done.
  - done.
Qed.

(** X13. Whatever happens to the hook, the published lists only grow, and
    by at most one list for each tick: there is never more than one refresh
    per frame, and no message, setRange or unmount publishes. *)
Theorem at_most_one_publish_per_tick (es : list event) (h : Hook) :
  exists new : list (JsArray.t DataSourceRow),
    publishes (run es h) = publishes h ++ new
    /\ (length new <= ticks es)%nat.
Proof.
  revert h. induction es as [|e es IH]; intros h.
  - exists []. by rewrite app_nil_r.
  - destruct (IH (step e h)) as (new & Hnew & Hlen).
    change (run (e :: es) h) with (run es (step e h)).
    unfold ticks in *. cbn [List.filter].
    destruct (step_publishes e h) as [Hsame|(-> & _ & Hpub)].
    + exists new. rewrite Hnew, Hsame. split; [done|].
      destruct (is_tick e); simpl; lia.
    + exists (data_current h :: new). rewrite Hnew, Hpub, <- app_assoc.
      split; [done|]. simpl. lia.
Qed.

(** X14. From the unmount on nothing is published any more, whatever
    messages, ticks and range changes follow: the hook stays unmounted and
    a flag that is set then is never consumed. *)
Theorem nothing_published_after_unmount (es : list event) (h : Hook) :
  publishes (run (ev_unmount :: es) h) = publishes h
  /\ isMounted (run (ev_unmount :: es) h) = false.
Proof.
  change (run (ev_unmount :: es) h) with (run es (unmount h)).
  change (publishes h) with (publishes (unmount h)).
  assert (isMounted (unmount h) = false) as Hm by done.
  revert Hm. generalize (unmount h). clear h.
  induction es as [|e es IH]; intros h Hm; [done|].
  change (run (e :: es) h) with (run es (step e h)).
  destruct (IH (step e h) (step_isMounted e h Hm)) as [-> ->]. split; [|done].
  destruct (step_publishes e h) as [Hsame|(_ & Hmounted & _)]; [done | congruence].
Qed.

(** X15. The hook's [setRange] records the range, tells the data source
    when the hook was given one (and nobody when it was not), and moves the
    window, and that is all: the published list and the flag are as before,
    so rows the window drops stay in the list until the next update.  When
    the window accepts the range its range is the recorded one; when it
    throws, the record (and the data source, if any) have the new range and
    the window the old one. *)
Theorem hook_setRange_moves_without_refresh (f t : Z) (h : Hook) :
  data_current (fst (hook_setRange f t h)) = data_current h
  /\ hasUpdated (fst (hook_setRange f t h)) = hasUpdated h
  /\ rangeRef (fst (hook_setRange f t h)) = mkRange f t
  /\ effects (fst (hook_setRange f t h))
     = (if has_dataSource h
        then effects h ++ [dataSource_setRange f t]
        else effects h)
  /\ (snd (hook_setRange f t h) = Normal ->
      range (dataWindow (fst (hook_setRange f t h))) = mkRange f t)
  /\ (snd (hook_setRange f t h) = Throw_RangeError ->
      dataWindow (fst (hook_setRange f t h)) = dataWindow h).
Proof.
  destruct (hook_setRange_fields f t h) as (Hd & Hu & _ & Hr & He & Hw & Hc).
  repeat split; try done; rewrite Hw, Hc.
  - destruct (setRange_cases f t (dataWindow h)) as [Hs| [Hs| [Hne Hv]]].
    + intros _. rewrite Hs. cbn [fst].
      destruct (decide ((f, t) = (from (range (dataWindow h)),
                                  to (range (dataWindow h))))) as [[= -> ->]|Hne].
      * by destruct (range (dataWindow h)).
      * destruct (JsArray.valid_length (t - f)) eqn:Hv.
        -- rewrite setRange_changed in Hs by done. by injection Hs as <-.
        -- by rewrite setRange_invalid in Hs.
    + by rewrite Hs.
    + intros _. by rewrite setRange_changed.
  - destruct (setRange_cases f t (dataWindow h)) as [Hs| [Hs| [Hne Hv]]].
    + by rewrite Hs.
    + by rewrite Hs.
    + by rewrite setRange_changed.
Qed.

Lemma hook_setRange_moves_without_refresh_witness :
  range (dataWindow (fst (hook_setRange 2 6 Sample.hook))) = mkRange 2 6
  /\ dataWindow (fst (hook_setRange 5 3 Sample.hook)) = dataWindow Sample.hook.
Proof.
  split.
  - exact (proj1 (proj2 (proj2 (proj2 (proj2
             (hook_setRange_moves_without_refresh 2 6 Sample.hook))))) eq_refl).
  - exact (proj2 (proj2 (proj2 (proj2 (proj2
             (hook_setRange_moves_without_refresh 5 3 Sample.hook))))) eq_refl).
Defined.

(** X16. A viewport update with a negative size is abandoned half way:
    [onSizeChange] has been called with the size, then [setRowCount] throws,
    and neither are the rows of the message added nor is the list
    materialized or the flag set. *)
Theorem negative_size_aborts_update (n : Z) (rows : option (list DataSourceRow))
    (h : Hook) :
  n < 0 ->
  datasourceMessageHandler (msg_viewport_update (Some n) rows) h
  = (log (onSizeChange n) h, Throw_RangeError).
Proof.
  intros Hn. simpl. by rewrite setRowCount_below_zero.
Qed.

Lemma negative_size_aborts_update_witness :
  datasourceMessageHandler
    (msg_viewport_update (Some (-1)) (Some [Sample.row 0])) Sample.hook
  = (log (onSizeChange (-1)) Sample.hook, Throw_RangeError).
Proof.
  apply (negative_size_aborts_update (-1) (Some [Sample.row 0]) Sample.hook). lia.
Defined.

(** ** The scroll hook: termination, the anchor, the published index *)

(** [handleScroll] on integers, the comparisons written out. *)
Lemma handleScroll_integers (fuel : nat) (p : ScrollHookProps) (e : ScrollEvent)
    (s : ScrollState) (bh a top : Z) :
  bufferHeight p = JsNum.Fin bh -> scrollTopRef s = JsNum.Fin a ->
  scrollTop e = JsNum.Fin top ->
  handleScroll fuel p e s
  = if (0 <? top - a) && ((bh <? Z.abs (top - a)) || (top <? bh)) then
      Some (sync_table e
              (rerange p (JsNum.mul (JsNum.floor_div (JsNum.Fin top) (JsNum.Fin bh))
                                    (JsNum.Fin bh)) s))
    else if negb (0 <? top - a) && ((bh <? Z.abs (top - a)) || (top <? bh)) then
      match snap_back fuel (JsNum.Fin bh) (JsNum.Fin a) (JsNum.Fin top) with
      | Some anchor => Some (sync_table e (rerange p anchor s))
      | None => None
      end
    else Some (sync_table e s).
Proof.
  intros Hbh Ha Htop. unfold handleScroll, crossed. rewrite Hbh, Ha, Htop.
  unfold JsNum.gt, JsNum.sub. cbn [JsNum.neg JsNum.add JsNum.abs JsNum.lt].
  by replace (top + - a) with (top - a) by lia.
Qed.

Lemma snap_back_result (bh anchor top : Z) (fuel : nat) :
  0 < bh -> anchor - top <= Z.of_nat fuel ->
  exists anchor' : Z,
    snap_back fuel (JsNum.Fin bh) (JsNum.Fin anchor) (JsNum.Fin top)
    = Some (JsNum.Fin anchor')
    /\ anchor' - top <= bh
    /\ (anchor' = anchor \/ (0 < anchor' - top /\ anchor' < anchor)).
Proof.
  intros Hbh. revert anchor.
  induction fuel as [|fuel IH]; intros anchor Hfuel; simpl;
    unfold JsNum.gt; simpl.
  - rewrite (proj2 (Z.ltb_ge _ _)) by lia.
    exists anchor. split; [done|]. split; [lia | by left].
  - destruct (Z.ltb_spec bh (anchor + - top)) as [Hgt|Hle].
    + destruct (IH (anchor + - bh)) as (a' & Hrun & Hnear & Hwhere); [lia|].
      exists a'. split; [done|]. split; [done|]. right. lia.
    + exists anchor. split; [done|]. split; [lia | by left].
Qed.

Lemma snap_back_diverges (bh anchor top : Z) (fuel : nat) :
  bh <= 0 -> bh < anchor - top ->
  snap_back fuel (JsNum.Fin bh) (JsNum.Fin anchor) (JsNum.Fin top) = None.
Proof.
  intros Hbh. revert anchor.
  induction fuel as [|fuel IH]; intros anchor Hfar; simpl; unfold JsNum.gt; simpl;
    rewrite (proj2 (Z.ltb_lt _ _)) by lia; [done|].
  apply IH. lia.
Qed.

Lemma snap_back_integer (bh anchor top : Z) (fuel : nat) (x : JsNum.t) :
  snap_back fuel (JsNum.Fin bh) (JsNum.Fin anchor) (JsNum.Fin top) = Some x ->
  exists anchor' : Z, x = JsNum.Fin anchor'.
Proof.
  revert anchor. induction fuel as [|fuel IH]; intros anchor; simpl;
    unfold JsNum.gt; simpl; destruct (bh <? anchor + - top); try done.
  - intros [= <-]. eauto.
  - apply IH.
  - intros [= <-]. eauto.
Qed.

Lemma forward_anchor_integers (top bh : Z) :
  bh <> 0 ->
  JsNum.mul (JsNum.floor_div (JsNum.Fin top) (JsNum.Fin bh)) (JsNum.Fin bh)
  = JsNum.Fin (top / bh * bh).
Proof. intros Hbh. simpl. by rewrite (proj2 (Z.eqb_neq bh 0) Hbh). Qed.

(** X17. With a positive buffer height (bufferCount and rowHeight integers
    of a positive product) and integer scroll positions, [handleScroll]
    returns: the backward loop ends when it may run [anchor - scrollTop]
    times.  Afterwards the anchor is an integer within one buffer height of
    the event's scrollTop. *)
Theorem handleScroll_returns_near_anchor (fuel : nat) (p : ScrollHookProps)
    (e : ScrollEvent) (s : ScrollState) (rh bc a top : Z) :
  rowHeight p = JsNum.Fin rh -> bufferCount p = JsNum.Fin bc -> 0 < bc * rh ->
  scrollTopRef s = JsNum.Fin a -> scrollTop e = JsNum.Fin top ->
  a - top <= Z.of_nat fuel ->
  exists (s' : ScrollState) (a' : Z),
    handleScroll fuel p e s = Some s'
    /\ scrollTopRef s' = JsNum.Fin a'
    /\ Z.abs (top - a') <= bc * rh.
Proof.
  intros Hrh Hbc Hbh Ha Htop Hfuel.
  assert (bufferHeight p = JsNum.Fin (bc * rh)) as Hbh'.
  { unfold bufferHeight. by rewrite Hrh, Hbc. }
  rewrite (handleScroll_integers fuel p e s _ _ _ Hbh' Ha Htop).
  destruct (Z.ltb_spec 0 (top - a)) as [Hfwd|Hback]; cbn [andb negb].
  - destruct (_ || _) eqn:Hcross.
    + rewrite forward_anchor_integers by lia.
      eexists _, _. split; [done|]. split; [done|].
      pose proof (Z.mul_div_le top (bc * rh) Hbh).
      pose proof (Z.mod_pos_bound top (bc * rh) Hbh).
      pose proof (Z.div_mod top (bc * rh)). lia.
    + apply orb_false_iff in Hcross as [Hnear _].
      apply Z.ltb_ge in Hnear.
      eexists _, _. split; [done|]. split; [exact Ha|]. done.
  - destruct (_ || _) eqn:Hcross.
    + destruct (snap_back_result (bc * rh) a top fuel Hbh Hfuel)
        as (a' & -> & Hnear & Hwhere).
      eexists _, _. split; [done|]. split; [done|]. lia.
    + apply orb_false_iff in Hcross as [Hnear _].
      apply Z.ltb_ge in Hnear.
      eexists _, _. split; [done|]. split; [exact Ha|]. done.
Qed.

Lemma handleScroll_returns_near_anchor_witness :
  exists (s' : ScrollState) (a' : Z),
    handleScroll 150 Sample.props (Sample.scroll_to 50) Sample.scrolled = Some s'
    /\ scrollTopRef s' = JsNum.Fin a'
    /\ Z.abs (50 - a') <= 5 * 20.
Proof.
  apply (handleScroll_returns_near_anchor 150 Sample.props (Sample.scroll_to 50)
           Sample.scrolled 20 5 200 50); try reflexivity; lia.
Defined.

(** X18. With a buffer height of zero or below (integers), a scroll event
    at or below the anchor that is farther from it than the buffer height
    never leaves the backward loop: no amount of fuel lets [handleScroll]
    return. *)
Theorem backward_scroll_hangs_without_positive_buffer (p : ScrollHookProps)
    (e : ScrollEvent) (s : ScrollState) (rh bc a top : Z) :
  rowHeight p = JsNum.Fin rh -> bufferCount p = JsNum.Fin bc -> bc * rh <= 0 ->
  scrollTopRef s = JsNum.Fin a -> scrollTop e = JsNum.Fin top ->
  top <= a -> bc * rh < a - top ->
  forall fuel : nat, handleScroll fuel p e s = None.
Proof.
  intros Hrh Hbc Hbh Ha Htop Hback Hfar fuel.
  assert (bufferHeight p = JsNum.Fin (bc * rh)) as Hbh'.
  { unfold bufferHeight. by rewrite Hrh, Hbc. }
  rewrite (handleScroll_integers fuel p e s _ _ _ Hbh' Ha Htop).
  rewrite (proj2 (Z.ltb_ge 0 (top - a))) by lia. cbn [andb negb].
  rewrite (proj2 (Z.ltb_lt (bc * rh) (Z.abs (top - a)))) by lia. cbn [orb].
  by rewrite snap_back_diverges.
Qed.

Lemma backward_scroll_hangs_without_positive_buffer_witness :
  handleScroll 1000 Sample.unbuffered_props (Sample.scroll_to 100) Sample.scrolled
  = None.
Proof.
  apply (backward_scroll_hangs_without_positive_buffer Sample.unbuffered_props
           (Sample.scroll_to 100) Sample.scrolled 20 0 200 100);
    try reflexivity; lia.
Defined.

(** X19. With a positive buffer height, a forward event that crosses puts
    the anchor on the multiple of the buffer height at or just below the
    event's scrollTop. *)
Theorem forward_anchor_is_buffer_boundary (fuel : nat) (p : ScrollHookProps)
    (e : ScrollEvent) (s s' : ScrollState) (rh bc top : Z) :
  rowHeight p = JsNum.Fin rh -> bufferCount p = JsNum.Fin bc -> 0 < bc * rh ->
  scrollTop e = JsNum.Fin top ->
  JsNum.gt (JsNum.sub (scrollTop e) (scrollTopRef s)) (JsNum.Fin 0) = true ->
  crossed p (JsNum.sub (scrollTop e) (scrollTopRef s)) (scrollTop e) = true ->
  handleScroll fuel p e s = Some s' ->
  exists q : Z,
    scrollTopRef s' = JsNum.Fin (q * (bc * rh))
    /\ q * (bc * rh) <= top < (q + 1) * (bc * rh).
Proof.
  intros Hrh Hbc Hbh Htop Hfwd Hcross.
  rewrite handleScroll_forward by done. intros [= <-].
  cbn [scrollTopRef sync_table rerange].
  unfold bufferHeight. rewrite Hrh, Hbc, Htop.
  change (JsNum.mul (JsNum.Fin bc) (JsNum.Fin rh)) with (JsNum.Fin (bc * rh)).
  rewrite forward_anchor_integers by lia.
  exists (top / (bc * rh)). split; [done|].
  pose proof (Z.mod_pos_bound top (bc * rh) Hbh).
  pose proof (Z.div_mod top (bc * rh)). lia.
Qed.

Lemma forward_anchor_is_buffer_boundary_witness :
  exists q : Z,
    scrollTopRef
      {| scrollTopRef := JsNum.Fin 700; firstRowIndex := JsNum.Fin 30;
         table := None |}
    = JsNum.Fin (q * (5 * 20))
    /\ q * (5 * 20) <= 777 < (q + 1) * (5 * 20).
Proof.
  apply (forward_anchor_is_buffer_boundary 0 Sample.props (Sample.scroll_to 777)
           Sample.at_top _ 20 5 777); first [reflexivity | lia].
Defined.

Lemma clamp_last_integers (p : ScrollHookProps) (first d v bc : Z) :
  dataRowCount p = JsNum.Fin d -> visibleRowCount p = JsNum.Fin v ->
  bufferCount p = JsNum.Fin bc ->
  clamp_last p (JsNum.Fin first)
  = JsNum.Fin (if d <? first + (v + 2 * bc) then d - (v + 2 * bc) else first).
Proof.
  intros Hd Hv Hbc. unfold clamp_last, renderedRowsCount. rewrite Hd, Hv, Hbc.
  unfold JsNum.gt. simpl.
  destruct (d <? first + (v + 2 * bc)); try done; f_equal; lia.
Qed.

Lemma firstRowIndex_of_integers (p : ScrollHookProps) (a rh bc : Z) :
  rowHeight p = JsNum.Fin rh -> bufferCount p = JsNum.Fin bc -> rh <> 0 ->
  firstRowIndex_of p (JsNum.Fin a) = JsNum.Fin (Z.max 0 (a / rh - bc)).
Proof.
  intros Hrh Hbc Hne. unfold firstRowIndex_of. rewrite Hrh, Hbc. simpl.
  rewrite (proj2 (Z.eqb_neq rh 0) Hne). simpl.
  destruct (Z.ltb_spec 0 (a / rh + - bc)); f_equal; lia.
Qed.

(** The index a re-range publishes from an integer anchor. *)
Lemma rerange_index_bounds (p : ScrollHookProps) (s : ScrollState)
    (a rh bc d v : Z) :
  rowHeight p = JsNum.Fin rh -> bufferCount p = JsNum.Fin bc -> rh <> 0 ->
  dataRowCount p = JsNum.Fin d -> visibleRowCount p = JsNum.Fin v ->
  exists z : Z,
    firstRowIndex (rerange p (JsNum.Fin a) s) = JsNum.Fin z
    /\ z + (v + 2 * bc) <= d
    /\ (v + 2 * bc <= d -> 0 <= z)
    /\ (d < v + 2 * bc -> z = d - (v + 2 * bc)).
Proof.
  intros Hrh Hbc Hne Hd Hv. cbn [firstRowIndex rerange].
  rewrite (firstRowIndex_of_integers p a rh bc) by done.
  rewrite (clamp_last_integers p _ d v bc) by done.
  eexists. split; [done|].
  destruct (Z.ltb_spec d (Z.max 0 (a / rh - bc) + (v + 2 * bc))); lia.
Qed.

(** X20. For integer props with a buffer height other than zero and
    integer scroll positions, an event either keeps firstRowIndex or
    publishes an integer [z] with [z + renderedRowsCount <= dataRowCount];
    [z] is not negative when the data has at least renderedRowsCount rows,
    and is [dataRowCount - renderedRowsCount], a negative number, when it
    has fewer. *)
Theorem published_index_bounds (fuel : nat) (p : ScrollHookProps)
    (e : ScrollEvent) (s s' : ScrollState) (rh bc d v a top : Z) :
  rowHeight p = JsNum.Fin rh -> bufferCount p = JsNum.Fin bc -> bc * rh <> 0 ->
  dataRowCount p = JsNum.Fin d -> visibleRowCount p = JsNum.Fin v ->
  scrollTopRef s = JsNum.Fin a -> scrollTop e = JsNum.Fin top ->
  handleScroll fuel p e s = Some s' ->
  firstRowIndex s' = firstRowIndex s
  \/ (exists z : Z,
        firstRowIndex s' = JsNum.Fin z
        /\ z + (v + 2 * bc) <= d
        /\ (v + 2 * bc <= d -> 0 <= z)
        /\ (d < v + 2 * bc -> z = d - (v + 2 * bc))).
Proof.
  intros Hrh Hbc Hbh Hd Hv Ha Htop.
  assert (bufferHeight p = JsNum.Fin (bc * rh)) as Hbh'.
  { unfold bufferHeight. by rewrite Hrh, Hbc. }
  assert (rh <> 0) as Hne by lia.
  rewrite (handleScroll_integers fuel p e s _ _ _ Hbh' Ha Htop).
  destruct (_ && _).
  - rewrite forward_anchor_integers by done. intros [= <-]. right.
    by apply (rerange_index_bounds p s _ rh bc d v).
  - destruct (_ && _); [|intros [= <-]; by left].
    destruct (snap_back _ _ _ _) as [x|] eqn:Hloop; [|done].
    apply snap_back_integer in Hloop as [a' ->]. intros [= <-]. right.
    by apply (rerange_index_bounds p s _ rh bc d v).
Qed.

Lemma published_index_bounds_witness :
  firstRowIndex
    {| scrollTopRef := JsNum.Fin 300; firstRowIndex := JsNum.Fin (-10);
       table := None |}
  = firstRowIndex Sample.at_top
  \/ (exists z : Z,
        firstRowIndex
          {| scrollTopRef := JsNum.Fin 300; firstRowIndex := JsNum.Fin (-10);
             table := None |} = JsNum.Fin z
        /\ z + (10 + 2 * 5) <= 10
        /\ (10 + 2 * 5 <= 10 -> 0 <= z)
        /\ (10 < 10 + 2 * 5 -> z = 10 - (10 + 2 * 5))).
Proof.
  apply (published_index_bounds 0
           {| bufferCount := JsNum.Fin 5; dataRowCount := JsNum.Fin 10;
              rowHeight := JsNum.Fin 20; visibleRowCount := JsNum.Fin 10 |}
           (Sample.scroll_to 300) Sample.at_top _ 20 5 10 10 0 300);
    first [reflexivity | lia].
Defined.

(** X21. Whatever an event does, the element [table.current], when there
    is one, ends with the scroll offsets of the event; when there is none,
    none appears. *)
Theorem table_follows_every_event (fuel : nat) (p : ScrollHookProps)
    (e : ScrollEvent) (s s' : ScrollState) :
  handleScroll fuel p e s = Some s' ->
  table s' = match table s with
             | Some _ => Some (scrollLeft e, scrollTop e)
             | None => None
             end.
Proof.
  unfold handleScroll. destruct (_ && _); [by intros [= <-]|].
  destruct (_ && _); [|by intros [= <-]].
  destruct (snap_back _ _ _ _); [|done]. by intros [= <-].
Qed.

Lemma table_follows_every_event_witness :
  table {| scrollTopRef := JsNum.Fin 200; firstRowIndex := JsNum.Fin 5;
           table := Some (JsNum.Fin 0, JsNum.Fin 300) |}
  = match table Sample.scrolled with
    | Some _ => Some (scrollLeft (Sample.scroll_to 300), scrollTop (Sample.scroll_to 300))
    | None => None
    end.
Proof.
  exact (table_follows_every_event 0 Sample.props (Sample.scroll_to 300)
           Sample.scrolled _ eq_refl).
Defined.

Lemma snap_back_stays (fuel : nat) (bh anchor top : Z) :
  anchor - top <= bh ->
  snap_back fuel (JsNum.Fin bh) (JsNum.Fin anchor) (JsNum.Fin top)
  = Some (JsNum.Fin anchor).
Proof.
  intros Hnear. destruct fuel; simpl; unfold JsNum.gt; simpl;
    by rewrite (proj2 (Z.ltb_ge _ _)) by lia.
Qed.

Lemma snap_back_exit (bh anchor top : Z) (fuel : nat) (x : JsNum.t) :
  snap_back fuel (JsNum.Fin bh) (JsNum.Fin anchor) (JsNum.Fin top) = Some x ->
  exists anchor' : Z, x = JsNum.Fin anchor' /\ anchor' - top <= bh.
Proof.
  revert anchor. induction fuel as [|fuel IH]; intros anchor; simpl;
    unfold JsNum.gt; simpl;
    destruct (Z.ltb_spec bh (anchor + - top)) as [Hfar|Hnear]; try done.
  - intros [= <-]. eexists. split; [done | lia].
  - apply IH.
  - intros [= <-]. eexists. split; [done | lia].
Qed.

Lemma snap_back_above (bh anchor top : Z) (fuel : nat) (x : JsNum.t) :
  0 < bh -> top <= anchor ->
  snap_back fuel (JsNum.Fin bh) (JsNum.Fin anchor) (JsNum.Fin top) = Some x ->
  exists anchor' : Z, x = JsNum.Fin anchor' /\ top <= anchor'.
Proof.
  intros Hbh. revert anchor. induction fuel as [|fuel IH]; intros anchor Habove;
    simpl; unfold JsNum.gt; simpl;
    destruct (Z.ltb_spec bh (anchor + - top)) as [Hfar|Hnear]; try done.
  - intros [= <-]. eauto.
  - apply IH. lia.
  - intros [= <-]. eauto.
Qed.

Lemma sync_rerange_again (p : ScrollHookProps) (e : ScrollEvent) (x : JsNum.t)
    (s : ScrollState) :
  sync_table e (rerange p x (sync_table e (rerange p x s)))
  = sync_table e (rerange p x s).
Proof. destruct s as [a f [tbl|]]; done. Qed.

Lemma sync_table_again (e : ScrollEvent) (s : ScrollState) :
  sync_table e (sync_table e s) = sync_table e s.
Proof. destruct s as [a f [tbl|]]; done. Qed.

(** After a re-range to the integer anchor [z] that is at or above the
    event and within a buffer height of it, or at or below it and less
    than a buffer height away, the same event changes nothing. *)
Lemma handleScroll_settled (fuel : nat) (p : ScrollHookProps) (e : ScrollEvent)
    (s : ScrollState) (bh z top : Z) :
  bufferHeight p = JsNum.Fin bh -> scrollTop e = JsNum.Fin top -> bh <> 0 ->
  (top <= z /\ z - top <= bh) \/ (z = top / bh * bh /\ z <= top < z + bh) ->
  handleScroll fuel p e (sync_table e (rerange p (JsNum.Fin z) s))
  = Some (sync_table e (rerange p (JsNum.Fin z) s)).
Proof.
  intros Hbh Htop Hne Hz.
  rewrite (handleScroll_integers fuel p e (sync_table e (rerange p (JsNum.Fin z) s))
             bh z top Hbh eq_refl Htop).
  destruct (Z.ltb_spec 0 (top - z)) as [Hfwd|Hback]; cbn [andb negb].
  - destruct Hz as [Hz|[Hz Hnear]]; [lia|].
    destruct (_ || _).
    + rewrite forward_anchor_integers by done. rewrite <- Hz.
      by rewrite sync_rerange_again.
    + by rewrite sync_table_again.
  - destruct (_ || _).
    + rewrite snap_back_stays by lia. by rewrite sync_rerange_again.
    + by rewrite sync_table_again.
Qed.

(** X22. With a positive buffer height and integer scroll positions,
    handling an event a second time changes nothing: whatever the first
    handling did (forward re-range, backward re-range or none), the state
    it leaves is a fixed point of the same event, and no loop iteration is
    needed to return. *)
Theorem repeated_event_changes_nothing (fuel fuel' : nat) (p : ScrollHookProps)
    (e : ScrollEvent) (s s' : ScrollState) (rh bc a top : Z) :
  rowHeight p = JsNum.Fin rh -> bufferCount p = JsNum.Fin bc -> 0 < bc * rh ->
  scrollTopRef s = JsNum.Fin a -> scrollTop e = JsNum.Fin top ->
  handleScroll fuel p e s = Some s' ->
  handleScroll fuel' p e s' = Some s'.
Proof.
  intros Hrh Hbc Hbh Ha Htop.
  assert (bufferHeight p = JsNum.Fin (bc * rh)) as Hbh'.
  { unfold bufferHeight. by rewrite Hrh, Hbc. }
  rewrite (handleScroll_integers fuel p e s _ _ _ Hbh' Ha Htop).
  destruct (Z.ltb_spec 0 (top - a)) as [Hfwd|Hback]; cbn [andb negb].
  - destruct (_ || _) eqn:Hcross.
    + rewrite forward_anchor_integers by lia. intros [= <-].
      apply (handleScroll_settled fuel' p e s (bc * rh) _ top); [done | done | lia |].
      right. split; [done|].
      pose proof (Z.mod_pos_bound top (bc * rh) Hbh).
      pose proof (Z.div_mod top (bc * rh)). lia.
    + intros [= <-].
      rewrite (handleScroll_integers fuel' p e (sync_table e s) (bc * rh) a top Hbh' Ha Htop).
      rewrite (proj2 (Z.ltb_lt 0 (top - a)) Hfwd), Hcross. cbn [andb negb].
      by rewrite sync_table_again.
  - assert (top <= a) as Hback' by lia.
    destruct (_ || _) eqn:Hcross.
    + destruct (snap_back _ _ _ _) as [x|] eqn:Hloop; [|done].
      pose proof (snap_back_above _ _ _ _ _ Hbh Hback' Hloop) as (a' & -> & Habove).
      apply snap_back_exit in Hloop as (a'' & [= <-] & Hnear).
      intros [= <-].
      apply (handleScroll_settled fuel' p e s (bc * rh) _ top); [done | done | lia |].
      left. lia.
    + intros [= <-].
      rewrite (handleScroll_integers fuel' p e (sync_table e s) (bc * rh) a top Hbh' Ha Htop).
      rewrite (proj2 (Z.ltb_ge 0 (top - a)) Hback), Hcross. cbn [andb negb].
      by rewrite sync_table_again.
Qed.

Lemma repeated_event_changes_nothing_witness :
  handleScroll 0 Sample.props (Sample.scroll_to 250)
    {| scrollTopRef := JsNum.Fin 200; firstRowIndex := JsNum.Fin 5; table := None |}
  = Some
      {| scrollTopRef := JsNum.Fin 200; firstRowIndex := JsNum.Fin 5; table := None |}.
Proof.
  apply (repeated_event_changes_nothing 0 0 Sample.props (Sample.scroll_to 250)
           Sample.at_top _ 20 5 0 250); first [reflexivity | lia].
Defined.

(** ** The hook over a run of events *)

Lemma reachable_step (e : event) (h : Hook) :
  reachable (dataWindow h) -> reachable (dataWindow (step e h)).
Proof.
  intros Hreach. destruct e as [m| |f t|]; simpl.
  - destruct m as [|[n|] [updates|]| |]; simpl; try done.
    + pose proof (reach_setRowCount n _ Hreach) as Hcut.
      destruct (setRowCount n (dataWindow h)) as [w []]; simpl in *; [|done].
      by apply reachable_add_all.
    + pose proof (reach_setRowCount n _ Hreach) as Hcut.
      by destruct (setRowCount n (dataWindow h)) as [w []].
    + by apply reachable_add_all.
    + by destruct (has_onConfigChange h).
  - unfold refreshIfUpdated. by destruct (isMounted h), (hasUpdated h).
  - destruct (hook_setRange_fields f t h) as (_ & _ & _ & _ & _ & -> & _).
    by apply reach_setRange.
  - done.
Qed.

Lemma reachable_run (es : list event) (h : Hook) :
  reachable (dataWindow h) -> reachable (dataWindow (run es h)).
Proof.
  revert h. induction es as [|e es IH]; intros h Hreach; [done|].
  change (run (e :: es) h) with (run es (step e h)).
  by apply IH, reachable_step.
Qed.

(** X23. Through every run of messages, ticks, range changes and an
    unmount, also when calls throw on the way, the window of the hook keeps
    its two invariants: the buffer is no longer than the range, and every
    populated slot [i] holds the row of index [range.from + i]. *)
Theorem hook_keeps_window_invariants (es : list event) (h : Hook) :
  reachable (dataWindow h) ->
  JsArray.len (data (dataWindow (run es h)))
  <= to (range (dataWindow (run es h))) - from (range (dataWindow (run es h)))
  /\ forall (i : nat) (row : DataSourceRow),
       data (dataWindow (run es h)) !! i = Some (Some row) ->
       row_IDX row = from (range (dataWindow (run es h))) + Z.of_nat i.
Proof.
  intros Hreach%(reachable_run es). split.
  - by apply fits_reachable in Hreach as [_ ?].
  - by apply slots_indexed_reachable.
Qed.

Lemma hook_keeps_window_invariants_witness :
  JsArray.len (data (dataWindow (run [ev_setRange 2 6; ev_tick] Sample.hook)))
  <= to (range (dataWindow (run [ev_setRange 2 6; ev_tick] Sample.hook)))
     - from (range (dataWindow (run [ev_setRange 2 6; ev_tick] Sample.hook))).
Proof.
  exact (proj1 (hook_keeps_window_invariants [ev_setRange 2 6; ev_tick]
                  Sample.hook reachable_sample_window)).
Defined.

Lemma step_data_current (e : event) (h : Hook) :
  data_current (step e h) = data_current h
  \/ exists a : JsArray.t DataSourceRow, data_current (step e h) = slice_sort a.
Proof.
  destruct e as [m| |f t|]; simpl.
  - destruct m as [|[n|] [updates|]| |]; simpl; try (by left).
    + destruct (setRowCount n (dataWindow h)) as [w []]; simpl; [right; eauto | by left].
    + destruct (setRowCount n (dataWindow h)) as [w []]; simpl; [right; eauto | by left].
    + right. eauto.
    + left. by destruct (has_onConfigChange h).
  - left. unfold refreshIfUpdated. by destruct (isMounted h), (hasUpdated h).
  - left. apply hook_setRange_fields.
  - by left.
Qed.

(** X24. A hook that starts with a sorted list (the empty list of a new
    hook is one) only ever publishes sorted lists: every list published
    during a run is the sort of some buffer, its rows in ascending order of
    render slot and its holes last. *)
Theorem published_lists_are_sorted (es : list event) (h : Hook)
    (a0 : JsArray.t DataSourceRow) :
  data_current h = slice_sort a0 ->
  exists new : list (JsArray.t DataSourceRow),
    publishes (run es h) = publishes h ++ new
    /\ Forall (fun d => (exists a, d = slice_sort a)
                        /\ StronglySorted render_ordered (JsArray.populated d)) new.
Proof.
  revert h a0. induction es as [|e es IH]; intros h a0 Hsorted.
  - exists []. by rewrite app_nil_r.
  - change (run (e :: es) h) with (run es (step e h)).
    assert (exists a, data_current (step e h) = slice_sort a) as [a1 Hsorted1].
    { destruct (step_data_current e h) as [->|?]; eauto. }
    destruct (IH (step e h) a1 Hsorted1) as (new & Hnew & Hall).
    destruct (step_publishes e h) as [Hsame|(_ & _ & Hpub)].
    + exists new. by rewrite Hnew, Hsame.
    + exists (data_current h :: new). rewrite Hnew, Hpub, <- app_assoc.
      split; [done|]. constructor; [|done]. split; [eauto|].
      rewrite Hsorted. unfold slice_sort. rewrite populated_rows_holes.
      apply sort_byKey_sorted.
Qed.

Lemma published_lists_are_sorted_witness :
  exists new : list (JsArray.t DataSourceRow),
    publishes
      (run [ev_message (msg_viewport_update None (Some [Sample.row 2; Sample.row 0]));
            ev_tick] Sample.hook)
    = publishes Sample.hook ++ new
    /\ Forall (fun d => (exists a, d = slice_sort a)
                        /\ StronglySorted render_ordered (JsArray.populated d)) new.
Proof.
  exact (published_lists_are_sorted
           [ev_message (msg_viewport_update None (Some [Sample.row 2; Sample.row 0]));
            ev_tick] Sample.hook [] eq_refl).
Defined.
